(** * widgeon.utils.animations: the value animator [AnimVec] and its scalar
      rate solver [_animate_value]

    Shallow embedding of [src/widgeon/utils/animations.py].

    Numbers.  A float64 is modelled by [f64]: a real number for every finite
    value, plus the two infinities and NaN with the IEEE 754 rules for them
    (division by zero, [inf - inf], [0 * inf], comparisons with NaN).
    Finite arithmetic is exact: there is no rounding and no underflow, and
    zero carries no sign (a zero divisor counts as [+0.0]).  Overflow is
    modelled where Python turns it into an exception, in the power of two
    Python floats ([OverflowError]); elsewhere a result beyond float64,
    which the code holds as an infinity, stays a finite number.

    Python numbers and numpy scalars differ in one respect that the source
    depends on: [x / 0] raises [ZeroDivisionError] when both operands are
    Python numbers and yields [inf] or [nan] as soon as one of them is a
    numpy scalar or array.  A scalar [num] therefore carries its [kind].

    Arrays.  A one-dimensional float64 array is a list of [f64].  The
    elementwise operations are those of arrays of one shape, which the three
    arrays of an animator are from its construction on ([has_len]);
    broadcasting between arrays of different lengths is not modelled.

    Exceptions.  A computation that may raise returns an [outcome]; a
    method of [AnimVec] returns a [res] holding the object as the raise
    left it. *)

From Stdlib Require Import Reals Lra Lia List ZArith Bool.
Import ListNotations.

Open Scope R_scope.

(* ================================================================= *)
(** ** Exceptions *)

Inductive exn : Type :=
| ZeroDivisionError   (* Python scalar division or power at a zero base *)
| ValueError          (* math.log outside its domain *)
| IndexError          (* array index out of bounds *)
| OverflowError       (* Python float power whose result leaves float64 *)
| ComplexResult.      (* negative Python float to a fractional power: the
                         result is a complex number, which [f64] lacks *)

Inductive outcome (A : Type) : Type :=
| Ok (a : A)
| Raise (e : exn).

Arguments Ok {A} a.
Arguments Raise {A} e.

Definition bind {A B : Type} (m : outcome A) (k : A -> outcome B) : outcome B :=
  match m with
  | Ok a => k a
  | Raise e => Raise e
  end.

Notation "x <- m ;; k" := (bind m (fun x => k))
  (at level 61, m at next level, right associativity).

(* ================================================================= *)
(** ** float64 values *)

Module F64.

Inductive f64 : Type :=
| Fin (r : R)
| PInf
| NInf
| NaN.

Definition Rltb (a b : R) : bool := if Rlt_dec a b then true else false.
Definition Reqb (a b : R) : bool := if Req_dec_T a b then true else false.

Definition is_finite (x : f64) : bool :=
  match x with Fin _ => true | _ => false end.

(** Sign of a real, and the infinity of a given sign ([nan] for zero). *)
Definition sgn (r : R) : comparison :=
  if Rltb r 0 then Lt else if Rltb 0 r then Gt else Eq.

Definition inf_of (c : comparison) : f64 :=
  match c with Gt => PInf | Lt => NInf | Eq => NaN end.

Definition cmp_mul (a b : comparison) : comparison :=
  match a, b with
  | Eq, _ | _, Eq => Eq
  | Gt, Gt | Lt, Lt => Gt
  | _, _ => Lt
  end.

Definition f_neg (x : f64) : f64 :=
  match x with
  | Fin r => Fin (- r)
  | PInf => NInf
  | NInf => PInf
  | NaN => NaN
  end.

Definition f_add (x y : f64) : f64 :=
  match x, y with
  | NaN, _ | _, NaN => NaN
  | Fin a, Fin b => Fin (a + b)
  | PInf, NInf | NInf, PInf => NaN
  | PInf, _ | _, PInf => PInf
  | NInf, _ | _, NInf => NInf
  end.

Definition f_sub (x y : f64) : f64 := f_add x (f_neg y).

Definition f_mul (x y : f64) : f64 :=
  match x, y with
  | NaN, _ | _, NaN => NaN
  | Fin a, Fin b => Fin (a * b)
  | Fin a, PInf | PInf, Fin a => inf_of (sgn a)
  | Fin a, NInf | NInf, Fin a => inf_of (cmp_mul (sgn a) Lt)
  | PInf, PInf | NInf, NInf => PInf
  | PInf, NInf | NInf, PInf => NInf
  end.

Definition f_div (x y : f64) : f64 :=
  match x, y with
  | NaN, _ | _, NaN => NaN
  | Fin a, Fin b => if Reqb b 0 then inf_of (sgn a) else Fin (a / b)
  | Fin _, PInf | Fin _, NInf => Fin 0
  | PInf, Fin b => if Rltb b 0 then NInf else PInf
  | NInf, Fin b => if Rltb b 0 then PInf else NInf
  | _, _ => NaN
  end.

Definition f_lt (x y : f64) : bool :=
  match x, y with
  | NaN, _ | _, NaN => false
  | Fin a, Fin b => Rltb a b
  | NInf, Fin _ | NInf, PInf | Fin _, PInf => true
  | _, _ => false
  end.

Definition f_gt (x y : f64) : bool := f_lt y x.

Definition f_eq (x y : f64) : bool :=
  match x, y with
  | Fin a, Fin b => Reqb a b
  | PInf, PInf | NInf, NInf => true
  | _, _ => false
  end.

Definition f_ne (x y : f64) : bool := negb (f_eq x y).

Definition f_abs (x : f64) : f64 :=
  match x with
  | Fin r => Fin (Rabs r)
  | PInf | NInf => PInf
  | NaN => NaN
  end.

(** [np.sign]: -1, 0 or 1, and [nan] for [nan]. *)
Definition f_sign (x : f64) : f64 :=
  match x with
  | Fin r => if Rltb r 0 then Fin (-1) else if Rltb 0 r then Fin 1 else Fin 0
  | PInf => Fin 1
  | NInf => Fin (-1)
  | NaN => NaN
  end.

(** [np.sqrt]: [nan] below zero. *)
Definition f_sqrt (x : f64) : f64 :=
  match x with
  | Fin r => if Rltb r 0 then NaN else Fin (sqrt r)
  | PInf => PInf
  | NInf | NaN => NaN
  end.

Definition is_int (y : R) : bool := Reqb (IZR (Int_part y)) y.

(** C [pow], which [np.power] applies to float64. *)
Definition f_pow (x y : f64) : f64 :=
  if f_eq y (Fin 0) then Fin 1
  else if f_eq x (Fin 1) then Fin 1
  else
    match x, y with
    | NaN, _ | _, NaN => NaN
    | Fin a, Fin b =>
        if Rltb 0 a then Fin (Rpower a b)
        else if Reqb a 0 then (if Rltb 0 b then Fin 0 else PInf)
        else if is_int b then Fin (powerRZ a (Int_part b))
        else NaN
    | Fin a, PInf =>
        if Rltb (Rabs a) 1 then Fin 0
        else if Reqb (Rabs a) 1 then Fin 1 else PInf
    | Fin a, NInf =>
        if Rltb (Rabs a) 1 then PInf
        else if Reqb (Rabs a) 1 then Fin 1 else Fin 0
    | PInf, Fin b => if Rltb 0 b then PInf else Fin 0
    | NInf, Fin b =>
        if Rltb 0 b
        then (if is_int b && Z.odd (Int_part b) then NInf else PInf)
        else Fin 0
    | PInf, PInf | NInf, PInf => PInf
    | PInf, NInf | NInf, NInf => Fin 0
    end.

(** Where float64 ends: a magnitude of [2 ** 1024 - 2 ** 970] or more
    rounds to an infinity. *)
Definition overflow_bound : R := (2 - / 2 ^ 53) * 2 ^ 1023.

(** Python's [float.__pow__]: C [pow], except that a zero base with a
    negative finite exponent raises, a negative finite base with a
    fractional exponent leaves the reals, and a result of finite operands
    that overflows raises [OverflowError] where C returns an infinity. *)
Definition py_float_pow (x y : f64) : outcome f64 :=
  match x, y with
  | Fin a, Fin b =>
      if Reqb a 0 && Rltb b 0 then Raise ZeroDivisionError
      else if Rltb a 0 && negb (is_int b) then Raise ComplexResult
      else
        match f_pow x y with
        | Fin r =>
            if Rltb (Rabs r) overflow_bound then Ok (Fin r)
            else Raise OverflowError
        | v => Ok v
        end
  | _, _ => Ok (f_pow x y)
  end.

(** [math.log]: natural logarithm, [ValueError] outside [(0, inf]]. *)
Definition f_log (x : f64) : outcome f64 :=
  match x with
  | Fin r => if Rltb 0 r then Ok (Fin (ln r)) else Raise ValueError
  | PInf => Ok PInf
  | NInf => Raise ValueError
  | NaN => Ok NaN
  end.

End F64.
Export F64.

(* ================================================================= *)
(** ** Scalars: Python numbers and numpy scalars *)

Inductive kind : Type :=
| Py    (* int or float of the interpreter *)
| Np.   (* np.float64 *)

Record num : Type := mk_num { nkind : kind; nval : f64 }.

Definition join (a b : kind) : kind :=
  match a, b with Py, Py => Py | _, _ => Np end.

(** A Python literal. *)
Definition py (r : R) : num := mk_num Py (Fin r).

Definition lift2 (f : f64 -> f64 -> f64) (x y : num) : num :=
  mk_num (join (nkind x) (nkind y)) (f (nval x) (nval y)).

Definition num_add : num -> num -> num := lift2 f_add.
Definition num_sub : num -> num -> num := lift2 f_sub.
Definition num_mul : num -> num -> num := lift2 f_mul.

(** [x / y]. *)
Definition num_div (x y : num) : outcome num :=
  match nkind x, nkind y with
  | Py, Py =>
      if f_eq (nval y) (Fin 0) then Raise ZeroDivisionError
      else Ok (mk_num Py (f_div (nval x) (nval y)))
  | _, _ => Ok (mk_num Np (f_div (nval x) (nval y)))
  end.

(** [x ** y]. *)
Definition num_pow (x y : num) : outcome num :=
  match nkind x, nkind y with
  | Py, Py => v <- py_float_pow (nval x) (nval y) ;; Ok (mk_num Py v)
  | _, _ => Ok (mk_num Np (f_pow (nval x) (nval y)))
  end.

Definition num_lt (x y : num) : bool := f_lt (nval x) (nval y).
Definition num_gt (x y : num) : bool := f_gt (nval x) (nval y).
Definition num_eq (x y : num) : bool := f_eq (nval x) (nval y).
Definition num_ne (x y : num) : bool := f_ne (nval x) (nval y).

(** The builtin [abs] keeps the kind of its argument. *)
Definition num_abs (x : num) : num := mk_num (nkind x) (f_abs (nval x)).

Definition np_sign (x : num) : num := mk_num Np (f_sign (nval x)).
Definition np_sqrt (x : num) : num := mk_num Np (f_sqrt (nval x)).
Definition np_power (x y : num) : num := mk_num Np (f_pow (nval x) (nval y)).

Definition math_log (x : num) : outcome num :=
  v <- f_log (nval x) ;; Ok (mk_num Py v).

(* ================================================================= *)
(** ** The scalar rate solver *)

(** [approx(a, b, variance)] *)
Definition approx (a b variance : num) : bool :=
  num_lt a (num_add b variance) && num_gt a (num_sub b variance).

(** [moving_toward(value, change_rate, drag)] *)
Definition moving_toward (value change_rate drag : num) : outcome num :=
  l <- math_log drag ;;
  q <- num_div change_rate l ;;
  Ok (num_sub value q).

(** [_animate_value(value, change_rate, target, acceleration,
                    acceleration_modifier, drag, delta_time)] *)
Definition _animate_value
    (value change_rate target acceleration acceleration_modifier drag
       delta_time : num) : outcome num :=
  moving_twd <- moving_toward value change_rate drag ;;
  if num_lt moving_twd (num_sub target (py (1 / 100))) then
    (* Calculate animation progress *)
    base <- num_div (num_abs change_rate)
                    (num_add acceleration_modifier (py 1)) ;;
    expo <- num_div (py 1) acceleration_modifier ;;
    let progress := num_mul (np_sign change_rate) (np_power base expo) in
    (* Increment animation progress by delta time *)
    let progress := num_add progress (num_mul delta_time acceleration) in
    (* Calculate new change rate *)
    let change_rate :=
      num_mul (num_mul (np_sign progress)
                       (num_add acceleration_modifier (py 1)))
              (np_power (num_abs progress) acceleration_modifier) in
    mt <- moving_toward value change_rate drag ;;
    change_rate <-
      (if num_gt mt target
       then l <- math_log drag ;; Ok (num_mul (num_sub value target) l)
       else Ok change_rate) ;;
    if num_gt (num_add value (num_mul change_rate delta_time)) target
    then num_div (num_sub target value) delta_time
    else Ok change_rate
  else
    change_rate <-
      (if num_gt (num_add target change_rate) moving_twd
          && num_gt moving_twd target
       then l <- math_log drag ;; Ok (num_mul (num_sub value target) l)
       else Ok change_rate) ;;
    p <- num_pow drag delta_time ;;
    Ok (num_mul change_rate p).

(* ================================================================= *)
(** ** numpy arrays of float64 *)

Definition vec : Type := list f64.

(** Elementwise operation on two arrays of one shape. *)
Fixpoint v_map2 (f : f64 -> f64 -> f64) (a b : vec) : vec :=
  match a, b with
  | x :: a', y :: b' => f x y :: v_map2 f a' b'
  | _, _ => []
  end.

Definition v_add : vec -> vec -> vec := v_map2 f_add.
Definition v_sub : vec -> vec -> vec := v_map2 f_sub.

(** [array * scalar], [scalar * array] and [array / scalar]. *)
Definition v_mul_r (a : vec) (s : num) : vec := map (fun x => f_mul x (nval s)) a.
Definition v_mul_l (s : num) (a : vec) : vec := map (fun x => f_mul (nval s) x) a.
Definition v_div_r (a : vec) (s : num) : vec := map (fun x => f_div x (nval s)) a.

(** [a.dot(b)], an np.float64. *)
Fixpoint dot_sum (a b : vec) : f64 :=
  match a, b with
  | x :: a', y :: b' => f_add (f_mul x y) (dot_sum a' b')
  | _, _ => Fin 0
  end.

Definition dot (a b : vec) : num := mk_num Np (dot_sum a b).

(** [np.zeros(n)] *)
Definition zeros (n : nat) : vec := repeat (Fin 0) n.

(** An index as numpy reads it: [0 <= i < n] or [-n <= i < 0]. *)
Definition norm_index (n : nat) (i : Z) : outcome nat :=
  if ((0 <=? i) && (i <? Z.of_nat n))%Z then Ok (Z.to_nat i)
  else if ((- Z.of_nat n <=? i) && (i <? 0))%Z then Ok (Z.to_nat (i + Z.of_nat n))
  else Raise IndexError.

Fixpoint update (a : vec) (k : nat) (x : f64) : vec :=
  match a, k with
  | [], _ => []
  | _ :: a', O => x :: a'
  | y :: a', S k' => y :: update a' k' x
  end.

(** [a[i]] *)
Definition getitem (a : vec) (i : Z) : outcome f64 :=
  k <- norm_index (length a) i ;;
  match nth_error a k with
  | Some x => Ok x
  | None => Raise IndexError
  end.

(** [a[i] = x] *)
Definition setitem (a : vec) (i : Z) (x : f64) : outcome vec :=
  k <- norm_index (length a) i ;;
  Ok (update a k x).

(** [a[np.abs(a) > value] = value] *)
Definition mask_assign_abs_gt (a : vec) (value : num) : vec :=
  map (fun x => if f_gt (f_abs x) (nval value) then nval value else x) a.

(* ================================================================= *)
(** ** The class [AnimVec] *)

(** Class attributes, shared by all instances. *)
Record AnimVecClass : Type := mk_class {
  default_acceleration : num;
  default_acceleration_modifier : num;
  default_drag : num
}.

(** The class as the module defines it: 3000, 1.3 and [10 ** (-7)]. *)
Definition AnimVec_class : AnimVecClass :=
  {| default_acceleration := py 3000;
     default_acceleration_modifier := py (13 / 10);
     default_drag := py (/ 10 ^ 7) |}.

Record AnimVec : Type := mk_AnimVec {
  _values : vec;
  _target : vec;
  _change : vec;
  _animate : bool;
  _loose : bool;
  _record_change : bool;
  keep_velocity : bool;
  _acceleration : option num;
  _acceleration_modifier : option num;
  _drag : option num
}.

Definition set_values (s : AnimVec) (v : vec) : AnimVec :=
  mk_AnimVec v (_target s) (_change s) (_animate s) (_loose s)
    (_record_change s) (keep_velocity s) (_acceleration s)
    (_acceleration_modifier s) (_drag s).

Definition set_target (s : AnimVec) (v : vec) : AnimVec :=
  mk_AnimVec (_values s) v (_change s) (_animate s) (_loose s)
    (_record_change s) (keep_velocity s) (_acceleration s)
    (_acceleration_modifier s) (_drag s).

Definition set_change (s : AnimVec) (v : vec) : AnimVec :=
  mk_AnimVec (_values s) (_target s) v (_animate s) (_loose s)
    (_record_change s) (keep_velocity s) (_acceleration s)
    (_acceleration_modifier s) (_drag s).

Definition set__animate (s : AnimVec) (b : bool) : AnimVec :=
  mk_AnimVec (_values s) (_target s) (_change s) b (_loose s)
    (_record_change s) (keep_velocity s) (_acceleration s)
    (_acceleration_modifier s) (_drag s).

(** [len(self)] is [self._values.shape[0]]. *)
Definition len (self : AnimVec) : nat := length (_values self).

(** Result of a method: the object afterwards, or the exception and the
    object as the statements before the raise left it. *)
Inductive res : Type :=
| Done (s : AnimVec)
| Raised (e : exn) (s : AnimVec).

Definition attempt {A : Type} (self : AnimVec) (m : outcome A) (k : A -> res)
  : res :=
  match m with
  | Ok a => k a
  | Raise e => Raised e self
  end.

Notation "x <-[ s ] m ;; k" := (attempt s m (fun x => k))
  (at level 61, m at next level, right associativity).

(** The object after a method call, whether it returned or raised. *)
Definition state_of (r : res) : AnimVec :=
  match r with Done s | Raised _ s => s end.

(** [acceleration.setter], [acceleration_modifier.setter]:
    [value if value > 0 else 0] *)
Definition clamp_positive (value : num) : num :=
  if num_gt value (py 0) then value else py 0.

Definition acceleration_setter (value : num) (self : AnimVec) : AnimVec :=
  mk_AnimVec (_values self) (_target self) (_change self) (_animate self)
    (_loose self) (_record_change self) (keep_velocity self)
    (Some (clamp_positive value)) (_acceleration_modifier self) (_drag self).

Definition acceleration_modifier_setter (value : num) (self : AnimVec)
  : AnimVec :=
  mk_AnimVec (_values self) (_target self) (_change self) (_animate self)
    (_loose self) (_record_change self) (keep_velocity self)
    (_acceleration self) (Some (clamp_positive value)) (_drag self).

(** [drag.setter]: [10 ** (-value) if value > 0 else 1] *)
Definition drag_of (value : num) : outcome num :=
  if num_gt value (py 0)
  then num_pow (py 10) (mk_num (nkind value) (f_neg (nval value)))
  else Ok (py 1).

Definition drag_setter (value : num) (self : AnimVec) : res :=
  d <-[self] drag_of value ;;
  Done (mk_AnimVec (_values self) (_target self) (_change self)
          (_animate self) (_loose self) (_record_change self)
          (keep_velocity self) (_acceleration self)
          (_acceleration_modifier self) (Some d)).

(** [AnimVec(vector, length, acceleration, acceleration_modifier, drag)] *)
Definition __init__ (vector : option vec) (length : nat)
    (acceleration acceleration_modifier drag : option num) : res :=
  let values := match vector with Some v => v | None => zeros length end in
  let self :=
    {| _values := values;
       _target := values;
       _change := zeros (List.length values);
       _animate := true;
       _loose := false;
       _record_change := true;
       keep_velocity := false;
       _acceleration := None;
       _acceleration_modifier := None;
       _drag := None |} in
  let self :=
    match acceleration with
    | Some a => acceleration_setter a self
    | None => self
    end in
  let self :=
    match acceleration_modifier with
    | Some a => acceleration_modifier_setter a self
    | None => self
    end in
  match drag with
  | Some d => drag_setter d self
  | None => Done self
  end.

(** [tick(self, delta)] *)
Definition tick (cls : AnimVecClass) (delta : num) (self : AnimVec) : res :=
  let acceleration :=
    match _acceleration self with
    | Some a => a
    | None => default_acceleration cls
    end in
  let acceleration_modifier :=
    match _acceleration_modifier self with
    | Some a => a
    | None => default_acceleration_modifier cls
    end in
  let drag :=
    match _drag self with Some d => d | None => default_drag cls end in
  if _animate self then
    if _loose self then
      p <-[self] num_pow drag delta ;;
      let self := set_change self (v_mul_r (_change self) p) in
      l <-[self] math_log drag ;;
      let self :=
        set_target self (v_sub (_values self) (v_div_r (_change self) l)) in
      Done (set_values self
              (v_add (_values self) (v_mul_r (_change self) delta)))
    else
      let difference_vector := v_sub (_target self) (_values self) in
      let distance := np_sqrt (dot difference_vector difference_vector) in
      let distance :=
        if num_eq distance (py 0) then py (10 / 10 ^ 100) else distance in
      (* Get the component of the change rate in the direction of the
         difference vector *)
      let c_dot_d := dot (_change self) difference_vector in
      let d_dot_d := dot difference_vector difference_vector in
      let c_dot_c := dot (_change self) (_change self) in
      let abs_c := np_sqrt c_dot_c in
      let num_ := num_mul c_dot_d (num_abs c_dot_d) in
      let den := num_mul d_dot_d abs_c in
      change <-[self] (if num_ne den (py 0) then num_div num_ den
                       else Ok (py 0)) ;;
      (* Animate the change vector's value *)
      change <-[self] _animate_value (py 0) change distance acceleration
                        acceleration_modifier drag delta ;;
      (* Apply the change rate to the normalized difference vector *)
      let self :=
        set_change self (v_div_r (v_mul_l change difference_vector) distance) in
      Done (set_values self
              (v_add (_values self) (v_mul_r (_change self) delta)))
  else
    let self :=
      if _record_change self then
        let a := py 1 in
        let b := py 2 in
        match num_div a (num_add a b) with
        | Raise e => Raised e self
        | Ok a =>
            match num_div b (num_add a b) with
            | Raise e => Raised e self
            | Ok b =>
                let new_change :=
                  v_div_r (v_sub (_target self) (_values self)) delta in
                if num_gt (dot new_change new_change)
                          (dot (_change self) (_change self))
                then Done (set_change self new_change)
                else Done (set_change self
                             (v_add (v_mul_r (_change self) a)
                                    (v_mul_r new_change b)))
            end
        end
      else Done (set_change self (zeros (len self))) in
    match self with
    | Done self => Done (set_values self (_target self))
    | Raised e self => Raised e self
    end.

(** [jump(self, i=None)] *)
Definition jump (i : option Z) (self : AnimVec) : res :=
  match i with
  | None =>
      let self := set_values self (_target self) in
      Done (set_change self (zeros (len self)))
  | Some i =>
      t <-[self] getitem (_target self) i ;;
      v <-[self] setitem (_values self) i t ;;
      let self := set_values self v in
      c <-[self] setitem (_change self) i (Fin 0) ;;
      Done (set_change self c)
  end.

(** [cap_change(self, value, i=None)] *)
Definition cap_change (value : num) (i : option Z) (self : AnimVec) : res :=
  match i with
  | None => Done (set_change self (mask_assign_abs_gt (_change self) value))
  | Some i =>
      c <-[self] getitem (_change self) i ;;
      if f_gt c (nval value) then
        c' <-[self] setitem (_change self) i (Fin (IZR i)) ;;
        Done (set_change self c')
      else Done self
  end.

(** [get_axis_from(self, source, axis, source_axis=None)] *)
Definition get_axis_from (source : AnimVec) (axis : Z) (source_axis : option Z)
    (self : AnimVec) : res :=
  let source_axis :=
    match source_axis with Some a => a | None => axis end in
  x <-[self] getitem (_change source) source_axis ;;
  c <-[self] setitem (_change self) axis x ;;
  let self := set_change self c in
  x <-[self] getitem (_values source) source_axis ;;
  v <-[self] setitem (_values self) axis x ;;
  let self := set_values self v in
  x <-[self] getitem (_target source) source_axis ;;
  t <-[self] setitem (_target self) axis x ;;
  Done (set_target self t).

(** [distance_to_target(self)] *)
Definition distance_to_target (self : AnimVec) : num :=
  let difference_vector := v_sub (_target self) (_values self) in
  np_sqrt (dot difference_vector difference_vector).

(** [animate.setter] *)
Definition animate_setter (value : bool) (self : AnimVec) : AnimVec :=
  let self := set__animate self value in
  if negb value then
    let self := set_change self (zeros (len self)) in
    set_target self (_values self)
  else self.

(** [loose.setter], [record_change.setter] *)
Definition loose_setter (value : bool) (self : AnimVec) : AnimVec :=
  mk_AnimVec (_values self) (_target self) (_change self) (_animate self)
    value (_record_change self) (keep_velocity self) (_acceleration self)
    (_acceleration_modifier self) (_drag self).

Definition record_change_setter (value : bool) (self : AnimVec) : AnimVec :=
  mk_AnimVec (_values self) (_target self) (_change self) (_animate self)
    (_loose self) value (keep_velocity self) (_acceleration self)
    (_acceleration_modifier self) (_drag self).

(** [change.setter]: [self._change = np.array(value)], of any length. *)
Definition change_setter (value : vec) (self : AnimVec) : AnimVec :=
  set_change self value.

(** [__getitem__(self, i)] *)
Definition __getitem__ (i : Z) (self : AnimVec) : outcome f64 :=
  getitem (_values self) i.

(** [__setitem__(self, i, value)] *)
Definition __setitem__ (i : Z) (value : num) (self : AnimVec) : res :=
  t <-[self] setitem (_target self) i (nval value) ;;
  Done (set_target self t).

(** [x.setter] and [y.setter] write the target; [z.setter] writes the
    values. *)
Definition x_setter (value : num) (self : AnimVec) : res :=
  t <-[self] setitem (_target self) 0 (nval value) ;;
  Done (set_target self t).

Definition y_setter (value : num) (self : AnimVec) : res :=
  t <-[self] setitem (_target self) 1 (nval value) ;;
  Done (set_target self t).

Definition z_setter (value : num) (self : AnimVec) : res :=
  v <-[self] setitem (_values self) 2 (nval value) ;;
  Done (set_values self v).

(** [set_default_acceleration], [set_default_acceleration_modifier],
    [set_default_drag] *)
Definition set_default_acceleration (value : num) (cls : AnimVecClass)
  : AnimVecClass :=
  mk_class value (default_acceleration_modifier cls) (default_drag cls).

Definition set_default_acceleration_modifier (value : num) (cls : AnimVecClass)
  : AnimVecClass :=
  mk_class (default_acceleration cls) value (default_drag cls).

Definition set_default_drag (value : num) (cls : AnimVecClass)
  : outcome AnimVecClass :=
  d <- num_pow (py 10) (mk_num (nkind value) (f_neg (nval value))) ;;
  Ok (mk_class (default_acceleration cls) (default_acceleration_modifier cls) d).


(* ================================================================= *)
(** ** Vocabulary of the properties *)

(** The test of the first branch of [_animate_value],
    [moving_twd < target - 0.01], and its negation. *)
Definition approach_phase (value change_rate target drag : num) : Prop :=
  exists moving_twd,
    moving_toward value change_rate drag = Ok moving_twd
    /\ num_lt moving_twd (num_sub target (py (1 / 100))) = true.

Definition coast_phase (value change_rate target drag : num) : Prop :=
  exists moving_twd,
    moving_toward value change_rate drag = Ok moving_twd
    /\ num_lt moving_twd (num_sub target (py (1 / 100))) = false.

(** The test of the snap in the second branch,
    [target + change_rate > moving_twd > target]. *)
Definition in_overshoot_band (value change_rate target drag : num) : bool :=
  match moving_toward value change_rate drag with
  | Ok moving_twd =>
      num_gt (num_add target change_rate) moving_twd
      && num_gt moving_twd target
  | Raise _ => false
  end.

(** The two halves of the first branch: the rate after the acceleration
    curve, and the two clamps applied to it. *)
Definition accelerated (change_rate acceleration acceleration_modifier
                          delta_time : num) : outcome num :=
  base <- num_div (num_abs change_rate)
                  (num_add acceleration_modifier (py 1)) ;;
  expo <- num_div (py 1) acceleration_modifier ;;
  let progress := num_mul (np_sign change_rate) (np_power base expo) in
  let progress := num_add progress (num_mul delta_time acceleration) in
  Ok (num_mul (num_mul (np_sign progress)
                       (num_add acceleration_modifier (py 1)))
              (np_power (num_abs progress) acceleration_modifier)).

Definition clamped (value target drag delta_time change_rate : num)
  : outcome num :=
  mt <- moving_toward value change_rate drag ;;
  change_rate <-
    (if num_gt mt target
     then l <- math_log drag ;; Ok (num_mul (num_sub value target) l)
     else Ok change_rate) ;;
  if num_gt (num_add value (num_mul change_rate delta_time)) target
  then num_div (num_sub target value) delta_time
  else Ok change_rate.

(** The change vector that a tick leaves behind when [animate] is off. *)
Definition instant_change (delta : num) (self : AnimVec) : vec :=
  if _record_change self then
    let new_change := v_div_r (v_sub (_target self) (_values self)) delta in
    if num_gt (dot new_change new_change) (dot (_change self) (_change self))
    then new_change
    else v_add (v_mul_r (_change self) (py (1 / (1 + 2))))
               (v_mul_r new_change (py (2 / (1 / (1 + 2) + 2))))
  else zeros (len self).

(** The three arrays of an animator of dimension [n]. *)
Definition has_len (n : nat) (self : AnimVec) : Prop :=
  length (_values self) = n
  /\ length (_target self) = n
  /\ length (_change self) = n.

(** The drag that [tick] reads. *)
Definition stored_drag (cls : AnimVecClass) (self : AnimVec) : num :=
  match _drag self with Some d => d | None => default_drag cls end.

Definition all_finite (a : vec) : Prop :=
  Forall (fun x => is_finite x = true) a.

(** *** Animators used as examples *)

(** A fresh animator holding [values], aimed at [target], moving at
    [change]. *)
Definition animator (values target change : vec) : AnimVec :=
  {| _values := values;
     _target := target;
     _change := change;
     _animate := true;
     _loose := false;
     _record_change := true;
     keep_velocity := false;
     _acceleration := None;
     _acceleration_modifier := None;
     _drag := None |}.

(** One axis at rest at 0, built with [acceleration_modifier=-1], which
    the setter turns into the Python integer 0. *)
Definition rest_zero_modifier (target : R) : AnimVec :=
  {| _values := [Fin 0];
     _target := [Fin target];
     _change := [Fin 0];
     _animate := true;
     _loose := false;
     _record_change := true;
     keep_velocity := false;
     _acceleration := None;
     _acceleration_modifier := Some (py 0);
     _drag := None |}.

(** One axis in instant mode: at 0, aimed at 21, with a recorded change
    of 21. *)
Definition blend_example : AnimVec :=
  set__animate (animator [Fin 0] [Fin 21] [Fin 21]) false.

(** Two axes on their way from the origin to (3, 4), and the same in
    instant mode. *)
Definition two_axes : AnimVec :=
  animator [Fin 0; Fin 0] [Fin 3; Fin 4] [Fin 0; Fin 0].

Definition two_axes_instant : AnimVec := set__animate two_axes false.

(** An animator at rest at the origin with a given change vector. *)
Definition cap_example (change : vec) : AnimVec :=
  animator (zeros (length change)) (zeros (length change)) change.


(** Two axes settled on (3, 4). *)
Definition settled_example : AnimVec :=
  animator [Fin 3; Fin 4] [Fin 3; Fin 4] [Fin 0; Fin 0].

(* ================================================================= *)
(** ** Reading the animator *)

(** [np.log10] *)
Definition f_log10 (x : f64) : f64 :=
  match x with
  | Fin r =>
      if Rltb 0 r then Fin (ln r / ln 10)
      else if Reqb r 0 then NInf else NaN
  | PInf => PInf
  | NInf | NaN => NaN
  end.

(** The [drag] property, [-np.log10(self._drag)].  [None] stands for the
    [TypeError] that [np.log10] raises on the [None] of a drag never set. *)
Definition drag_getter (self : AnimVec) : option num :=
  match _drag self with
  | Some d => Some (mk_num Np (f_neg (f_log10 (nval d))))
  | None => None
  end.

(** The [x], [y] and [z] properties read the values. *)
Definition x_getter (self : AnimVec) : outcome f64 := getitem (_values self) 0.
Definition y_getter (self : AnimVec) : outcome f64 := getitem (_values self) 1.
Definition z_getter (self : AnimVec) : outcome f64 := getitem (_values self) 2.

(** *** Arrays of finite numbers, as lists of reals *)

Fixpoint r_map2 (f : R -> R -> R) (a b : list R) : list R :=
  match a, b with
  | x :: a', y :: b' => f x y :: r_map2 f a' b'
  | _, _ => []
  end.

Fixpoint r_dot (a b : list R) : R :=
  match a, b with
  | x :: a', y :: b' => x * y + r_dot a' b'
  | _, _ => 0
  end.

(** The animator [animator values target change] on finite arrays. *)
Definition finite_animator (values target change : list R) : AnimVec :=
  animator (map Fin values) (map Fin target) (map Fin change).

(** *** Comparing change vectors *)


(** Componentwise, [step] has the sign of the way from [values] to
    [target], or is zero. *)
Definition heads_toward (values target step : list R) : Prop :=
  Forall2 (fun s d => 0 <= s * d) step (r_map2 Rminus target values).

(** *** What [tick] reads *)

(** The distance that [tick] hands to the solver. *)
Definition solver_distance (values target : list R) : num :=
  let dd := r_dot (r_map2 Rminus target values) (r_map2 Rminus target values) in
  if Reqb (sqrt dd) 0 then py (10 / 10 ^ 100) else mk_num Np (Fin (sqrt dd)).

Definition stored_acceleration (cls : AnimVecClass) (self : AnimVec) : num :=
  match _acceleration self with
  | Some a => a
  | None => default_acceleration cls
  end.

Definition stored_acceleration_modifier (cls : AnimVecClass) (self : AnimVec)
  : num :=
  match _acceleration_modifier self with
  | Some a => a
  | None => default_acceleration_modifier cls
  end.

(** The initial values: the vector given, or zeros. *)
Definition initial_values (vector : option (list R)) (n : nat) : list R :=
  match vector with Some v => v | None => repeat 0 n end.

(** *** More animators used as examples *)

(** Three axes at rest at the origin, aimed at (1, 2, 3). *)
Definition three_axes : AnimVec :=
  finite_animator [0; 0; 0] [1; 2; 3] [0; 0; 0].

(** One axis at rest at 0, aimed at 0.005. *)
Definition near_example : AnimVec := finite_animator [0] [1 / 200] [0].

(** Two axes at rest at the origin, aimed at (3, 4). *)
Definition far_example : AnimVec := finite_animator [0; 0] [3; 4] [0; 0].


Definition loose_rest_example : AnimVec :=
  loose_setter true (finite_animator [3; 4] [0; 0] [0; 0]).

(** The class after [set_default_drag(0)]: a default drag of 1. *)
Definition drag_one_class : AnimVecClass :=
  mk_class (py 3000) (py (13 / 10)) (py 1).

(* ================================================================= *)
(** * Properties *)

(** ** Deciding comparisons of reals *)

Lemma Rltb_true (a b : R) : a < b -> Rltb a b = true.
Proof.
  intros H. unfold Rltb. destruct (Rlt_dec a b); [reflexivity | contradiction].
Qed.

Lemma Rltb_false (a b : R) : ~ a < b -> Rltb a b = false.
Proof.
  intros H. unfold Rltb. destruct (Rlt_dec a b); [contradiction | reflexivity].
Qed.

Lemma Reqb_true (a b : R) : a = b -> Reqb a b = true.
Proof.
  intros H. unfold Reqb.
  destruct (Req_dec_T a b); [reflexivity | contradiction].
Qed.

Lemma Reqb_false (a b : R) : a <> b -> Reqb a b = false.
Proof.
  intros H. unfold Reqb.
  destruct (Req_dec_T a b); [contradiction | reflexivity].
Qed.

(** Settle every comparison of the goal that [lra] can decide. *)
Ltac rdecide :=
  repeat match goal with
    | |- context [Rltb ?a ?b] =>
        first [ rewrite (Rltb_true a b) by lra
              | rewrite (Rltb_false a b) by lra ]
    | |- context [Reqb ?a ?b] =>
        first [ rewrite (Reqb_true a b) by lra
              | rewrite (Reqb_false a b) by lra ]
    end.

(** Split on the comparisons that remain. *)
Ltac rcases :=
  repeat match goal with
    | |- context [Rltb ?a ?b] =>
        let H := fresh "Hlt" in
        destruct (Rlt_dec a b) as [H | H];
        [ rewrite (Rltb_true a b H) | rewrite (Rltb_false a b H) ]
    | |- context [Reqb ?a ?b] =>
        let H := fresh "Heq" in
        destruct (Req_dec_T a b) as [H | H];
        [ rewrite (Reqb_true a b H) | rewrite (Reqb_false a b H) ]
    end.

(** ** Constants of the source *)

Lemma ln_neg (d : R) : 0 < d < 1 -> ln d < 0.
Proof.
  intros [H0 H1]. rewrite <- ln_1. apply ln_increasing; assumption.
Qed.

(** [default_drag], [10 ** (-7)]. *)
Lemma default_drag_range : 0 < / 10 ^ 7 < 1.
Proof.
  assert (H : 10 ^ 7 = 10000000) by (simpl; ring).
  rewrite H. lra.
Qed.

(** The distance [10e-100] that stands in for zero lies below the 0.01
    of the phase test. *)
Lemma epsilon_range : 0 < 10 / 10 ^ 100 < 1 / 100.
Proof.
  assert (H97 : 1 <= 10 ^ 97) by (apply pow_R1_Rle; lra).
  assert (H : 10 ^ 100 = 1000 * 10 ^ 97).
  { change 100%nat with (3 + 97)%nat. rewrite pow_add. simpl (10 ^ 3). ring. }
  rewrite H. split.
  - apply Rdiv_lt_0_compat; lra.
  - apply Rmult_lt_reg_r with (1000 * 10 ^ 97); [lra | ].
    unfold Rdiv. rewrite Rmult_assoc, Rinv_l by lra. lra.
Qed.

Lemma ln_half_bounds : -1 < ln (1 / 2) < - (1 / 2).
Proof.
  assert (Hln : ln (1 / 2) = - ln 2).
  { replace (1 / 2) with (/ 2) by lra. apply ln_Rinv. lra. }
  rewrite Hln.
  assert (H1 : ln 2 < 1).
  { assert (H : ln 2 < ln (exp 1)).
    { apply ln_increasing; [lra | ]. pose proof (exp_ineq1 1). lra. }
    now rewrite ln_exp in H. }
  assert (H2 : 1 / 2 < ln 2).
  { assert (H : ln (exp (1 / 2)) < ln 2); [ | now rewrite ln_exp in H ].
    apply ln_increasing; [apply exp_pos | ].
    pose proof (exp_pos (1 / 2)) as Hp. pose proof exp_le_3 as H3.
    replace 1 with (1 / 2 + 1 / 2) in H3 by lra. rewrite exp_plus in H3. nra. }
  lra.
Qed.

(** float64 reaches far beyond 1. *)
Lemma overflow_bound_gt_1 : 1 < overflow_bound.
Proof.
  unfold overflow_bound.
  assert (H53 : 1 <= 2 ^ 53) by (apply pow_R1_Rle; lra).
  assert (H1023 : 1 <= 2 ^ 1023) by (apply pow_R1_Rle; lra).
  assert (Hinv : / 2 ^ 53 <= 1 / 2).
  { assert (H2 : 2 <= 2 ^ 53).
    { change 53%nat with (1 + 52)%nat. rewrite pow_add.
      assert (1 <= 2 ^ 52) by (apply pow_R1_Rle; lra). simpl (2 ^ 1). nra. }
    replace (1 / 2) with (/ 2) by lra. apply Rinv_le_contravar; lra. }
  nra.
Qed.

(** A power that does not grow: a base in (0,1] with an exponent that is
    not negative, or a base of at least 1 with one that is not positive. *)
Lemma Rpower_le_1 (x y : R) :
  0 < x -> (x <= 1 /\ 0 <= y) \/ (1 <= x /\ y <= 0) -> 0 < Rpower x y <= 1.
Proof.
  intros Hx Hxy. unfold Rpower. split; [apply exp_pos | ].
  rewrite <- exp_0.
  assert (Hz : y * ln x <= 0).
  { destruct Hxy as [[Hx1 Hy] | [Hx1 Hy] ].
    - assert (ln x <= 0).
      { destruct Hx1 as [Hlt | ->]; [ | rewrite ln_1; lra ].
        left. rewrite <- ln_1. now apply ln_increasing. }
      nra.
    - assert (0 <= ln x).
      { destruct Hx1 as [Hlt | <-]; [ | rewrite ln_1; lra ].
        left. rewrite <- ln_1. apply ln_increasing; lra. }
      nra. }
  destruct Hz as [Hz | ->]; [ left; now apply exp_increasing | right; reflexivity ].
Qed.

(** ** Finite arithmetic is the arithmetic of the reals *)

Section Finite.

Variables (kx ky : kind) (x y : R).

Lemma math_log_fin : 0 < x -> math_log (mk_num kx (Fin x)) = Ok (py (ln x)).
Proof.
  intros H. unfold math_log, f_log. simpl. rdecide. reflexivity.
Qed.

Lemma num_div_fin :
  y <> 0 ->
  num_div (mk_num kx (Fin x)) (mk_num ky (Fin y))
  = Ok (mk_num (join kx ky) (Fin (x / y))).
Proof.
  intros H. unfold num_div. simpl.
  rewrite (Reqb_false y 0 H). destruct kx, ky; reflexivity.
Qed.

(** C [pow] at a positive base. *)
Lemma f_pow_pos_base : 0 < x -> f_pow (Fin x) (Fin y) = Fin (Rpower x y).
Proof.
  intros H. unfold f_pow. simpl.
  destruct (Req_dec_T y 0) as [-> | Hy].
  - rewrite Reqb_true by reflexivity. now rewrite Rpower_O.
  - rewrite (Reqb_false y 0 Hy).
    destruct (Req_dec_T x 1) as [-> | Hx].
    + rewrite Reqb_true by reflexivity.
      unfold Rpower. now rewrite ln_1, Rmult_0_r, exp_0.
    + rewrite (Reqb_false x 1 Hx). now rdecide.
Qed.

(** [x ** y] at a positive base returns when the power stays within
    float64; between two Python floats it raises beyond. *)
Lemma num_pow_fin :
  0 < x -> Rpower x y < overflow_bound ->
  num_pow (mk_num kx (Fin x)) (mk_num ky (Fin y))
  = Ok (mk_num (join kx ky) (Fin (Rpower x y))).
Proof.
  intros H Hb.
  assert (Habs : Rabs (Rpower x y) = Rpower x y).
  { apply Rabs_pos_eq. left. apply exp_pos. }
  pose proof (f_pow_pos_base H) as Hp.
  unfold num_pow, py_float_pow. cbn [nkind nval]. rewrite Hp.
  destruct kx, ky; cbn [join]; try reflexivity.
  rewrite Habs. rdecide. reflexivity.
Qed.

Lemma num_pow_overflow :
  0 < x -> overflow_bound <= Rpower x y ->
  num_pow (py x) (py y) = Raise OverflowError.
Proof.
  intros H Hb.
  assert (Habs : Rabs (Rpower x y) = Rpower x y).
  { apply Rabs_pos_eq. left. apply exp_pos. }
  assert (Hy : y <> 0).
  { intros ->. rewrite Rpower_O in Hb by assumption.
    pose proof overflow_bound_gt_1. lra. }
  assert (Hx : x <> 1).
  { intros ->. unfold Rpower in Hb. rewrite ln_1, Rmult_0_r, exp_0 in Hb.
    pose proof overflow_bound_gt_1. lra. }
  unfold num_pow, py_float_pow, py, f_pow. cbn [nkind nval f_eq].
  rewrite (Reqb_false y 0 Hy), (Reqb_false x 1 Hx).
  rdecide. reflexivity.
Qed.

(** Only a power of two Python floats can raise. *)
Lemma num_pow_cases :
  0 < x ->
  num_pow (mk_num kx (Fin x)) (mk_num ky (Fin y))
  = Ok (mk_num (join kx ky) (Fin (Rpower x y)))
  \/ (num_pow (mk_num kx (Fin x)) (mk_num ky (Fin y)) = Raise OverflowError
      /\ overflow_bound <= Rpower x y).
Proof.
  intros H.
  destruct (Rlt_dec (Rpower x y) overflow_bound) as [Hb | Hb].
  - left. now apply num_pow_fin.
  - destruct kx, ky.
    + right. split; [ apply num_pow_overflow; [assumption | lra] | lra ].
    + left. unfold num_pow. cbn [nkind nval join]. do 2 f_equal.
      apply f_pow_pos_base. assumption.
    + left. unfold num_pow. cbn [nkind nval join]. do 2 f_equal.
      apply f_pow_pos_base. assumption.
    + left. unfold num_pow. cbn [nkind nval join]. do 2 f_equal.
      apply f_pow_pos_base. assumption.
Qed.

(** A power that does not grow stays within float64. *)
Lemma num_pow_le_1 :
  0 < x -> (x <= 1 /\ 0 <= y) \/ (1 <= x /\ y <= 0) ->
  num_pow (mk_num kx (Fin x)) (mk_num ky (Fin y))
  = Ok (mk_num (join kx ky) (Fin (Rpower x y))).
Proof.
  intros H Hxy. apply num_pow_fin; [assumption | ].
  pose proof (Rpower_le_1 x y H Hxy). pose proof overflow_bound_gt_1. lra.
Qed.

End Finite.

Lemma num_div_by_fin (x : num) (ky : kind) (y : R) :
  y <> 0 ->
  num_div x (mk_num ky (Fin y))
  = Ok (mk_num (join (nkind x) ky) (f_div (nval x) (Fin y))).
Proof.
  intros H. unfold num_div. cbn [nkind nval f_eq].
  rewrite (Reqb_false y 0 H). destruct (nkind x), ky; reflexivity.
Qed.

Lemma moving_toward_fin (kv kc kd : kind) (v c d : R) :
  0 < d < 1 ->
  moving_toward (mk_num kv (Fin v)) (mk_num kc (Fin c)) (mk_num kd (Fin d))
  = Ok (mk_num (join kv (join kc Py)) (Fin (v - c / ln d))).
Proof.
  intros Hd. unfold moving_toward.
  rewrite math_log_fin by lra. simpl.
  unfold py. rewrite num_div_fin by (pose proof (ln_neg d Hd); lra).
  reflexivity.
Qed.


Lemma f_sign_fin (c : R) :
  exists s, f_sign (Fin c) = Fin s /\ (c = 0 -> s = 0) /\ (c <> 0 -> s <> 0).
Proof.
  unfold f_sign. rcases; eexists; (split; [reflexivity | split; intros; lra]).
Qed.

Lemma f_pow_zero_exponent (x : f64) : f_pow x (Fin 0) = Fin 1.
Proof. unfold f_pow. cbn [f_eq]. now rewrite Reqb_true. Qed.

Lemma f_pow_fin (a b : R) :
  0 <= a -> 0 < b -> exists r, f_pow (Fin a) (Fin b) = Fin r.
Proof.
  intros Ha Hb. unfold f_pow. cbn [f_eq].
  rewrite (Reqb_false b 0) by lra.
  rcases; first [ exfalso; lra | eexists; reflexivity ].
Qed.

Lemma f_pow_pinf (a : R) :
  0 <= a ->
  (exists r, f_pow (Fin a) PInf = Fin r) \/ (f_pow (Fin a) PInf = PInf /\ 1 < a).
Proof.
  intros Ha. unfold f_pow. cbn [f_eq].
  rewrite (Rabs_pos_eq a Ha).
  rcases; first [ left; eexists; reflexivity
                | right; split; [reflexivity | lra] ].
Qed.

(** ** The approach phase of [_animate_value] *)

Lemma _animate_value_approach
    (value change_rate target acceleration acceleration_modifier drag
       delta_time : num) :
  approach_phase value change_rate target drag ->
  _animate_value value change_rate target acceleration acceleration_modifier
    drag delta_time
  = (rate <- accelerated change_rate acceleration acceleration_modifier
               delta_time ;;
     clamped value target drag delta_time rate).
Proof.
  intros (mt & Hmt & Hlt).
  unfold _animate_value, accelerated, clamped.
  rewrite Hmt. cbn [bind]. rewrite Hlt.
  destruct (num_div (num_abs change_rate) _) as [base | e]; cbn [bind];
    [ | reflexivity ].
  destruct (num_div (py 1) acceleration_modifier) as [expo | e]; reflexivity.
Qed.

(** The rate that leaves the acceleration curve, on float64 values: at a
    zero modifier, and at a positive one. *)
Lemma curve_out_zero (p : f64) :
  p <> NaN ->
  exists r,
    f_mul (f_mul (f_sign p) (Fin (0 + 1))) (f_pow (f_abs p) (Fin 0)) = Fin r.
Proof.
  intros Hp. rewrite f_pow_zero_exponent.
  destruct p as [r | | | ]; [ | | | contradiction ].
  - destruct (f_sign_fin r) as (s & -> & _). eexists; reflexivity.
  - eexists; reflexivity.
  - eexists; reflexivity.
Qed.

Lemma curve_out_pos (p m : R) :
  0 < m ->
  exists r,
    f_mul (f_mul (f_sign (Fin p)) (Fin (m + 1))) (f_pow (f_abs (Fin p)) (Fin m))
    = Fin r.
Proof.
  intros Hm. cbn [f_abs].
  destruct (f_sign_fin p) as (s & -> & _).
  destruct (f_pow_fin (Rabs p) m (Rabs_pos p) Hm) as (q & ->).
  eexists; reflexivity.
Qed.

(** The progress that enters it. *)
Lemma curve_in_pos (c m dta : R) :
  0 < m ->
  exists p,
    f_add (f_mul (f_sign (Fin c))
                 (f_pow (Fin (Rabs c / (m + 1))) (Fin (1 / m))))
          (Fin dta)
    = Fin p.
Proof.
  intros Hm.
  destruct (f_sign_fin c) as (s & -> & _).
  destruct (f_pow_fin (Rabs c / (m + 1)) (1 / m)) as (q & ->).
  - apply Rmult_le_pos; [apply Rabs_pos | ]. left. apply Rinv_0_lt_compat. lra.
  - unfold Rdiv. rewrite Rmult_1_l. now apply Rinv_0_lt_compat.
  - eexists; reflexivity.
Qed.

Lemma curve_in_zero (c dta : R) :
  f_add (f_mul (f_sign (Fin c)) (f_pow (Fin (Rabs c / (0 + 1))) PInf)) (Fin dta)
  <> NaN.
Proof.
  assert (Hb : Rabs c / (0 + 1) = Rabs c)
    by (unfold Rdiv; rewrite Rplus_0_l, Rinv_1; ring).
  rewrite Hb.
  destruct (f_pow_pinf (Rabs c) (Rabs_pos c)) as [(q & ->) | (-> & Hc)].
  - destruct (f_sign_fin c) as (s & -> & _). discriminate.
  - assert (Hc0 : c <> 0) by (intros ->; rewrite Rabs_R0 in Hc; lra).
    unfold f_sign. rcases; cbn [f_mul f_add inf_of]; unfold sgn; rdecide;
      cbn [f_add inf_of cmp_mul]; discriminate.
Qed.

(** With a modifier of the animator's domain the curve yields a finite
    rate, unless the modifier is the Python zero. *)
Lemma accelerated_finite (kc ka km kdt : kind) (c a m dt : R) :
  0 <= m -> (km = Py -> m <> 0) ->
  exists rate r,
    accelerated (mk_num kc (Fin c)) (mk_num ka (Fin a)) (mk_num km (Fin m))
      (mk_num kdt (Fin dt)) = Ok rate
    /\ nval rate = Fin r.
Proof.
  intros Hm Hpy. unfold accelerated, num_abs, num_add, lift2, py.
  cbn [nval nkind f_abs f_add].
  rewrite num_div_fin by lra. cbn [bind].
  destruct (Req_dec_T m 0) as [-> | Hm0].
  - (* a numpy zero: the exponent is inf *)
    destruct km; [now elim Hpy | ].
    unfold num_div. cbn [nval nkind bind f_div].
    rewrite Reqb_true by reflexivity.
    assert (Hs : sgn 1 = Gt) by (unfold sgn; now rdecide).
    rewrite Hs. cbn [inf_of].
    destruct (curve_out_zero _ (curve_in_zero c (dt * a))) as (r & Hr).
    eexists _, r. split; [reflexivity | exact Hr].
  - rewrite num_div_fin by assumption. cbn [bind].
    destruct (curve_in_pos c m (dt * a)) as (p & Hp); [lra | ].
    destruct (curve_out_pos p m) as (r & Hr); [lra | ].
    eexists _, r. split; [reflexivity | ].
    cbn [nval num_mul lift2 np_sign np_power num_abs f_mul].
    cbn [f_mul] in Hp. rewrite Hp. exact Hr.
Qed.

(** A Python zero as [acceleration_modifier] stops the curve at
    [1 / acceleration_modifier]. *)
Lemma accelerated_py_zero (kc : kind) (c : R) (acceleration delta_time : num) :
  accelerated (mk_num kc (Fin c)) acceleration (py 0) delta_time
  = Raise ZeroDivisionError.
Proof.
  unfold accelerated, num_abs, num_add, lift2, py. cbn [nval nkind f_abs f_add].
  rewrite num_div_fin by lra. cbn [bind].
  unfold num_div. cbn [nkind nval f_eq]. now rewrite Reqb_true.
Qed.

(** The two clamps land a finite rate on or before the target. *)
Lemma clamped_bound (kv kt kd kdt : kind) (v t d dt : R) (rate : num) (c : R) :
  0 < d < 1 -> 0 < dt -> nval rate = Fin c ->
  exists r x,
    clamped (mk_num kv (Fin v)) (mk_num kt (Fin t)) (mk_num kd (Fin d))
      (mk_num kdt (Fin dt)) rate = Ok r
    /\ nval r = Fin x /\ v + x * dt <= t.
Proof.
  intros Hd Hdt Hc. destruct rate as [kc f]. cbn [nval] in Hc. subst f.
  unfold clamped. rewrite moving_toward_fin by assumption. cbn [bind].
  unfold num_add, num_sub, num_mul, lift2, py.
  rewrite math_log_fin by lra.
  unfold num_gt, f_gt. cbn [nval f_lt bind].
  assert (Hland : v + (t - v) / dt * dt <= t) by (right; field; lra).
  destruct (Rlt_dec t (v - c / ln d)) as [Hover | Hover];
    [ rewrite (Rltb_true _ _ Hover) | rewrite (Rltb_false _ _ Hover) ];
    cbn [bind nval num_add num_mul num_sub lift2 py f_add f_mul f_sub f_neg
         f_lt].
  all: rcases.
  all: try (rewrite num_div_fin by lra; eexists _, _;
            split; [reflexivity | split; [reflexivity | ] ];
            exact Hland).
  all: eexists _, _; split; [reflexivity | split; [reflexivity | lra] ].
Qed.

(** Whatever leaves the curve, the clamps return [nan] for [nan], [-inf]
    for [-inf], and otherwise a finite rate that lands on or before the
    target. *)
Lemma clamped_any_rate (kv kt kd kdt : kind) (v t d dt : R) (rate : num) :
  0 < d < 1 -> 0 < dt ->
  exists r,
    clamped (mk_num kv (Fin v)) (mk_num kt (Fin t)) (mk_num kd (Fin d))
      (mk_num kdt (Fin dt)) rate = Ok r
    /\ (nval r = NaN \/ nval r = NInf
        \/ exists x, nval r = Fin x /\ v + x * dt <= t).
Proof.
  intros Hd Hdt. destruct rate as [kc [c | | | ]].
  - destruct (clamped_bound kv kt kd kdt v t d dt (mk_num kc (Fin c)) c Hd Hdt
                eq_refl) as (r & x & Hr & Hx & Hb).
    exists r. split; [exact Hr | ]. right. right. now exists x.
  - (* inf: the first clamp replaces it *)
    pose proof (ln_neg d Hd) as HL.
    assert (Hland : v + (t - v) / dt * dt <= t) by (right; field; lra).
    unfold clamped, moving_toward. rewrite math_log_fin by lra. cbn [bind].
    unfold py. rewrite num_div_by_fin by lra. cbn [bind].
    unfold num_gt, f_gt, num_add, num_sub, num_mul, lift2.
    cbn [nkind nval f_div]. rdecide.
    cbn [bind nval nkind f_sub f_neg f_add f_mul f_lt].
    rcases.
    + rewrite num_div_fin by lra. eexists. split; [reflexivity | ].
      right. right. eexists. split; [reflexivity | exact Hland].
    + eexists. split; [reflexivity | ].
      right. right. eexists. split; [reflexivity | lra].
  - (* -inf passes both tests *)
    pose proof (ln_neg d Hd) as HL.
    unfold clamped, moving_toward. rewrite math_log_fin by lra. cbn [bind].
    unfold py. rewrite num_div_by_fin by lra. cbn [bind].
    unfold num_gt, f_gt, num_add, num_sub, num_mul, lift2.
    cbn [nkind nval f_div]. rdecide.
    cbn [bind nval nkind f_sub f_neg f_add f_mul f_lt].
    unfold sgn. rdecide. cbn [cmp_mul inf_of f_add f_lt].
    eexists. split; [reflexivity | right; left; reflexivity].
  - (* nan fails both tests *)
    pose proof (ln_neg d Hd) as HL.
    unfold clamped, moving_toward. rewrite math_log_fin by lra. cbn [bind].
    unfold py. rewrite num_div_by_fin by lra. cbn [bind].
    unfold num_gt, f_gt, num_add, num_sub, num_mul, lift2.
    cbn [bind nval nkind f_div f_sub f_neg f_add f_mul f_lt].
    eexists. split; [reflexivity | left; reflexivity].
Qed.

(** An approach from rest: value 0, rate 0, target 1. *)
Lemma approach_from_rest (k : kind) (d : R) :
  0 < d < 1 -> approach_phase (py 0) (py 0) (mk_num k (Fin 1)) (py d).
Proof.
  intros Hd. eexists. split; [ apply moving_toward_fin; exact Hd | ].
  unfold num_lt, num_sub, lift2, py. cbn [nval f_sub f_neg f_add f_lt].
  apply Rltb_true. unfold Rdiv. rewrite Rmult_0_l. lra.
Qed.

(** On the exact arithmetic of the model, where the quotient of the second
    clamp times [delta_time] is the distance itself: with [delta_time > 0],
    stored drag in (0,1) and an [acceleration_modifier] that is not
    negative, every returned rate [r] is finite with
    [value + r * delta_time <= target], and the call returns unless the
    modifier is the Python zero.  float64 rounds that quotient, and the
    product can then pass the target by an ulp. *)
Lemma animate_value_no_overshoot_exact
    (kv kc kt ka km kd kdt : kind) (v c t a m d dt : R) :
  0 < dt -> 0 < d < 1 -> 0 <= m ->
  approach_phase (mk_num kv (Fin v)) (mk_num kc (Fin c)) (mk_num kt (Fin t))
    (mk_num kd (Fin d)) ->
  (forall r,
      _animate_value (mk_num kv (Fin v)) (mk_num kc (Fin c)) (mk_num kt (Fin t))
        (mk_num ka (Fin a)) (mk_num km (Fin m)) (mk_num kd (Fin d))
        (mk_num kdt (Fin dt)) = Ok r ->
      exists x, nval r = Fin x /\ v + x * dt <= t)
  /\ ((km = Py -> m <> 0) ->
      exists r,
        _animate_value (mk_num kv (Fin v)) (mk_num kc (Fin c))
          (mk_num kt (Fin t)) (mk_num ka (Fin a)) (mk_num km (Fin m))
          (mk_num kd (Fin d)) (mk_num kdt (Fin dt)) = Ok r).
Proof.
  intros Hdt Hd Hm Happroach.
  rewrite (_animate_value_approach _ _ _ _ _ _ _ Happroach).
  destruct km; [ destruct (Req_dec_T m 0) as [-> | Hm0] | ].
  - (* Python zero: nothing is returned *)
    fold (py 0). rewrite accelerated_py_zero. cbn [bind].
    split; [ discriminate | intros H; now elim H ].
  - destruct (accelerated_finite kc ka Py kdt c a m dt Hm (fun _ => Hm0))
      as (rate & c' & -> & Hrate).
    destruct (clamped_bound kv kt kd kdt v t d dt rate c' Hd Hdt Hrate)
      as (r & x & Hr & Hx & Hbound).
    cbn [bind]. rewrite Hr. split.
    + intros r' [= <-]. now exists x.
    + intros _. now exists r.
  - destruct (accelerated_finite kc ka Np kdt c a m dt Hm)
      as (rate & c' & -> & Hrate); [ discriminate | ].
    destruct (clamped_bound kv kt kd kdt v t d dt rate c' Hd Hdt Hrate)
      as (r & x & Hr & Hx & Hbound).
    cbn [bind]. rewrite Hr. split.
    + intros r' [= <-]. now exists x.
    + intros _. now exists r.
Qed.





(** The bound does not depend on the tuning: for any acceleration
    and any modifier, a rate that the approach phase returns is [nan],
    [-inf], or finite and within the bound. *)
Lemma animate_value_no_overshoot_any_tuning
    (kv kc kt kd kdt : kind) (v c t d dt : R)
    (acceleration acceleration_modifier r : num) :
  0 < dt -> 0 < d < 1 ->
  approach_phase (mk_num kv (Fin v)) (mk_num kc (Fin c)) (mk_num kt (Fin t))
    (mk_num kd (Fin d)) ->
  _animate_value (mk_num kv (Fin v)) (mk_num kc (Fin c)) (mk_num kt (Fin t))
    acceleration acceleration_modifier (mk_num kd (Fin d))
    (mk_num kdt (Fin dt)) = Ok r ->
  nval r = NaN \/ nval r = NInf \/ exists x, nval r = Fin x /\ v + x * dt <= t.
Proof.
  intros Hdt Hd Happroach.
  rewrite (_animate_value_approach _ _ _ _ _ _ _ Happroach).
  destruct (accelerated _ _ _ _) as [rate | e]; cbn [bind]; [ | discriminate ].
  destruct (clamped_any_rate kv kt kd kdt v t d dt rate Hd Hdt)
    as (r' & -> & Hr').
  now intros [= <-].
Qed.



(** C2: the call does raise.  From rest (value 0, rate 0) towards target 1,
    with the defaults for acceleration and drag and the value 0 that the
    setter of [acceleration_modifier] stores for a non-positive input, the
    approach branch evaluates [1 / acceleration_modifier] and the call ends
    in [ZeroDivisionError] instead of returning a rate. *)
Theorem animate_value_zero_modifier_raises :
  _animate_value (py 0) (py 0) (py 1) (py 3000) (py 0) (py (/ 10 ^ 7))
    (py (1 / 60))
  = Raise ZeroDivisionError.
Proof.
  rewrite _animate_value_approach
    by (apply (approach_from_rest Py), default_drag_range).
  unfold py at 1. now rewrite accelerated_py_zero.
Qed.

Lemma sqrt_1_sq : sqrt ((1 + - 0) * (1 + - 0) + 0) = 1.
Proof. replace ((1 + - 0) * (1 + - 0) + 0) with 1 by ring. apply sqrt_1. Qed.

Lemma clamp_positive_nonpos (r : R) : r <= 0 -> clamp_positive (py r) = py 0.
Proof.
  intros H. unfold clamp_positive, num_gt, f_gt, py. cbn [nval f_lt].
  now rdecide.
Qed.

(** The same through the public interface: [AnimVec(length=1,
    acceleration_modifier=-1)], then [a[0] = 1], then [a.tick(1/60)]. *)
Example tick_zero_modifier_raises :
  __init__ None 1 None (Some (py (-1))) None = Done (rest_zero_modifier 0)
  /\ __setitem__ 0 (py 1) (rest_zero_modifier 0) = Done (rest_zero_modifier 1)
  /\ tick AnimVec_class (py (1 / 60)) (rest_zero_modifier 1)
     = Raised ZeroDivisionError (rest_zero_modifier 1).
Proof.
  split; [ | split ].
  - unfold __init__, acceleration_modifier_setter.
    rewrite clamp_positive_nonpos by lra. reflexivity.
  - reflexivity.
  - unfold tick, attempt, rest_zero_modifier.
    cbn [_animate _loose _values _target _change _acceleration _drag
         _acceleration_modifier AnimVec_class default_acceleration
         default_drag default_acceleration_modifier].
    unfold v_sub, dot, np_sqrt, num_mul, num_abs, num_ne, num_eq, lift2, f_ne.
    unfold py at 1 2.
    cbn [v_map2 dot_sum nval nkind f_sub f_neg f_add f_mul f_sqrt f_abs f_eq].
    replace (0 * 0 + 0) with 0 by ring.
    rdecide. rewrite sqrt_1_sq, sqrt_0. cbn [f_mul f_eq]. rdecide. cbn [negb].
    change (nval (py 0)) with (Fin 0). cbv beta iota. rdecide.
    rewrite _animate_value_approach
      by (apply (approach_from_rest Np), default_drag_range).
    now rewrite accelerated_py_zero.
Qed.

(** ** The coast phase of [_animate_value] *)

(** In the coast phase the rate is snapped inside the band and then
    multiplied by [drag ** delta_time], inside the band and outside it;
    and the call raises when that power of two Python floats overflows. *)
Lemma animate_value_coast_cases
    (kv kc kt kd kdt : kind) (v c t d dt : R)
    (acceleration acceleration_modifier : num) :
  0 < d < 1 ->
  coast_phase (mk_num kv (Fin v)) (mk_num kc (Fin c)) (mk_num kt (Fin t))
    (mk_num kd (Fin d)) ->
  (exists r,
      _animate_value (mk_num kv (Fin v)) (mk_num kc (Fin c))
        (mk_num kt (Fin t)) acceleration acceleration_modifier
        (mk_num kd (Fin d)) (mk_num kdt (Fin dt)) = Ok r
      /\ nval r =
         Fin ((if in_overshoot_band (mk_num kv (Fin v)) (mk_num kc (Fin c))
                    (mk_num kt (Fin t)) (mk_num kd (Fin d))
               then (v - t) * ln d else c) * Rpower d dt))
  \/ (_animate_value (mk_num kv (Fin v)) (mk_num kc (Fin c))
        (mk_num kt (Fin t)) acceleration acceleration_modifier
        (mk_num kd (Fin d)) (mk_num kdt (Fin dt)) = Raise OverflowError
      /\ overflow_bound <= Rpower d dt).
Proof.
  intros Hd (mt & Hmt & Hlt).
  unfold _animate_value, in_overshoot_band. rewrite Hmt. cbn [bind].
  rewrite Hlt. rewrite math_log_fin by lra.
  destruct (num_pow_cases kd kdt d dt) as [-> | [-> Hover] ]; [lra | | ].
  - left. destruct (num_gt _ mt && num_gt mt _); cbn [bind];
      eexists; (split; [reflexivity | reflexivity]).
  - right. destruct (num_gt _ mt && num_gt mt _); cbn [bind];
      (split; [reflexivity | exact Hover]).
Qed.

(** With a [delta_time] that is not negative the power is at most 1 and
    the call returns. *)
Lemma animate_value_coast_rate
    (kv kc kt kd kdt : kind) (v c t d dt : R)
    (acceleration acceleration_modifier : num) :
  0 < d < 1 -> 0 <= dt ->
  coast_phase (mk_num kv (Fin v)) (mk_num kc (Fin c)) (mk_num kt (Fin t))
    (mk_num kd (Fin d)) ->
  exists r,
    _animate_value (mk_num kv (Fin v)) (mk_num kc (Fin c)) (mk_num kt (Fin t))
      acceleration acceleration_modifier (mk_num kd (Fin d))
      (mk_num kdt (Fin dt)) = Ok r
    /\ nval r =
       Fin ((if in_overshoot_band (mk_num kv (Fin v)) (mk_num kc (Fin c))
                  (mk_num kt (Fin t)) (mk_num kd (Fin d))
             then (v - t) * ln d else c) * Rpower d dt).
Proof.
  intros Hd Hdt Hcoast.
  destruct (animate_value_coast_cases kv kc kt kd kdt v c t d dt acceleration
              acceleration_modifier Hd Hcoast) as [Hr | [_ Hover] ];
    [exact Hr | ].
  assert (Hle : 0 < Rpower d dt <= 1) by (apply Rpower_le_1; lra).
  pose proof overflow_bound_gt_1. lra.
Qed.

(** Value 0, rate 1, target 1, drag 0.5: the projection [1 / ln 2] lies in
    the band between 1 and 2. *)
Lemma coast_in_band_example :
  coast_phase (py 0) (py 1) (py 1) (py (1 / 2))
  /\ in_overshoot_band (py 0) (py 1) (py 1) (py (1 / 2)) = true.
Proof.
  pose proof ln_half_bounds as HL.
  assert (Hmt : 1 < 0 - 1 / ln (1 / 2) < 2).
  { assert (Hq : 1 / ln (1 / 2) * ln (1 / 2) = 1) by (field; lra).
    split; nra. }
  unfold coast_phase, in_overshoot_band.
  unfold py. rewrite moving_toward_fin by lra.
  split.
  - eexists. split; [reflexivity | ].
    unfold num_lt, num_sub, lift2. cbn [nval f_sub f_neg f_add f_lt].
    apply Rltb_false. lra.
  - unfold num_gt, f_gt, num_add, lift2. cbn [nval f_add f_lt].
    rewrite !Rltb_true by lra. reflexivity.
Qed.

(** [0.5 ** -2000] is [2 ** 2000], beyond float64. *)
Lemma half_pow_overflows : overflow_bound <= Rpower (1 / 2) (-2000).
Proof.
  assert (Hpow : Rpower (1 / 2) (-2000) = 2 ^ 2000).
  { rewrite <- (Rpower_pow 2000 2) by lra.
    assert (HI : INR 2000 = 2000).
    { rewrite INR_IZR_INZ. reflexivity. }
    rewrite HI. unfold Rpower. f_equal.
    replace (1 / 2) with (/ 2) by lra. rewrite ln_Rinv by lra. ring. }
  rewrite Hpow. unfold overflow_bound.
  assert (H1023 : 0 < 2 ^ 1023) by (apply pow_lt; lra).
  assert (H53 : 0 < / 2 ^ 53) by (apply Rinv_0_lt_compat, pow_lt; lra).
  assert (Hle : 2 ^ 1024 <= 2 ^ 2000) by (apply Rle_pow; [lra | lia]).
  assert (H1024 : 2 ^ 1024 = 2 * 2 ^ 1023) by reflexivity.
  nra.
Qed.

(** At rest on the target the call is in the coast phase, and a negative
    [delta_time] of two Python floats makes [drag ** delta_time] raise:
    [_animate_value(0, 0, 0, 3000, 1.3, 0.5, -2000)]. *)
Example animate_value_coast_overflow :
  coast_phase (py 0) (py 0) (py 0) (py (1 / 2))
  /\ _animate_value (py 0) (py 0) (py 0) (py 3000) (py (13 / 10)) (py (1 / 2))
       (py (-2000)) = Raise OverflowError.
Proof.
  pose proof ln_half_bounds as HL.
  assert (Hcoast : coast_phase (py 0) (py 0) (py 0) (py (1 / 2))).
  { unfold coast_phase, py. rewrite moving_toward_fin by lra.
    eexists. split; [reflexivity | ].
    unfold num_lt, num_sub, lift2. cbn [nval f_sub f_neg f_add f_lt].
    apply Rltb_false. unfold Rdiv. rewrite Rmult_0_l. lra. }
  split; [exact Hcoast | ].
  unfold _animate_value, py. rewrite moving_toward_fin by lra. cbn [bind].
  unfold num_lt, num_gt, f_gt, num_sub, num_add, lift2, py.
  cbn [nval nkind f_sub f_neg f_add f_lt].
  replace (0 - 0 / ln (1 / 2)) with 0 by (unfold Rdiv; ring).
  rdecide. cbn [andb bind].
  fold (py (1 / 2)) (py (-2000)).
  rewrite num_pow_overflow by (lra || apply half_pow_overflows).
  reflexivity.
Qed.

(** C3, as amended: in the coast phase, with a [delta_time] that is not
    negative, the call returns, and the decay by [drag ** delta_time]
    applies to both outcomes.  Inside the band the returned rate is
    [(value - target) * ln(drag) * drag ** delta_time]; outside it,
    [current_rate * drag ** delta_time]. *)
Theorem animate_value_coast
    (kv kc kt kd kdt : kind) (v c t d dt : R)
    (acceleration acceleration_modifier : num) :
  0 < d < 1 -> 0 <= dt ->
  coast_phase (mk_num kv (Fin v)) (mk_num kc (Fin c)) (mk_num kt (Fin t))
    (mk_num kd (Fin d)) ->
  exists r,
    _animate_value (mk_num kv (Fin v)) (mk_num kc (Fin c)) (mk_num kt (Fin t))
      acceleration acceleration_modifier (mk_num kd (Fin d))
      (mk_num kdt (Fin dt)) = Ok r
    /\ (in_overshoot_band (mk_num kv (Fin v)) (mk_num kc (Fin c))
          (mk_num kt (Fin t)) (mk_num kd (Fin d)) = true ->
        nval r = Fin ((v - t) * ln d * Rpower d dt))
    /\ (in_overshoot_band (mk_num kv (Fin v)) (mk_num kc (Fin c))
          (mk_num kt (Fin t)) (mk_num kd (Fin d)) = false ->
        nval r = Fin (c * Rpower d dt)).
Proof.
  intros Hd Hdt Hcoast.
  destruct (animate_value_coast_rate kv kc kt kd kdt v c t d dt acceleration
              acceleration_modifier Hd Hdt Hcoast) as (r & Hr & Hval).
  exists r. split; [exact Hr | ].
  split; intros Hband; rewrite Hband in Hval; exact Hval.
Qed.

Lemma animate_value_coast_witness :
  exists r,
    _animate_value (py 0) (py 1) (py 1) (py 3000) (py (13 / 10)) (py (1 / 2))
      (py 1) = Ok r
    /\ (in_overshoot_band (py 0) (py 1) (py 1) (py (1 / 2)) = true ->
        nval r = Fin ((0 - 1) * ln (1 / 2) * Rpower (1 / 2) 1))
    /\ (in_overshoot_band (py 0) (py 1) (py 1) (py (1 / 2)) = false ->
        nval r = Fin (1 * Rpower (1 / 2) 1)).
Proof.
  apply (animate_value_coast Py Py Py Py Py 0 1 1 (1 / 2) 1 (py 3000)
           (py (13 / 10))).
  - lra.
  - lra.
  - apply coast_in_band_example.
Defined.

(** C3, as stated, fails: at value 0, rate 1, target 1, drag 0.5 and
    delta_time 1 the call is in the coast phase and inside the band, and
    the returned rate is [(0 - 1) * ln 0.5 * 0.5], not the coast-to-target
    rate [(0 - 1) * ln 0.5]. *)
Lemma animate_value_coast_snap_not_exact :
  coast_phase (py 0) (py 1) (py 1) (py (1 / 2))
  /\ in_overshoot_band (py 0) (py 1) (py 1) (py (1 / 2)) = true
  /\ exists r,
      _animate_value (py 0) (py 1) (py 1) (py 3000) (py (13 / 10)) (py (1 / 2))
        (py 1) = Ok r
      /\ nval r = Fin ((0 - 1) * ln (1 / 2) * (1 / 2))
      /\ nval r <> Fin ((0 - 1) * ln (1 / 2)).
Proof.
  destruct coast_in_band_example as [Hcoast Hband].
  split; [exact Hcoast | split; [exact Hband | ] ].
  destruct (animate_value_coast_rate Py Py Py Py Py 0 1 1 (1 / 2) 1 (py 3000)
              (py (13 / 10))) as (r & Hr & Hval); [lra | lra | exact Hcoast | ].
  fold (py 0) (py 1) (py (1 / 2)) in Hr, Hval.
  rewrite Hband, Rpower_1 in Hval by lra.
  exists r. split; [exact Hr | split; [exact Hval | ] ].
  rewrite Hval. intros [= H]. pose proof ln_half_bounds. lra.
Qed.

(** ** Instant mode *)

Lemma blend_weight_a :
  num_div (py 1) (num_add (py 1) (py 2)) = Ok (py (1 / (1 + 2))).
Proof.
  unfold num_add, lift2, py. cbn [nval nkind f_add join].
  now rewrite num_div_fin by lra.
Qed.

(** [b = b / (a + b)] reads the [a] that the line before has overwritten. *)
Lemma blend_weight_b :
  num_div (py 2) (num_add (py (1 / (1 + 2))) (py 2))
  = Ok (py (2 / (1 / (1 + 2) + 2))).
Proof.
  unfold num_add, lift2, py. cbn [nval nkind f_add join].
  now rewrite num_div_fin by lra.
Qed.

Lemma tick_instant (cls : AnimVecClass) (delta : num) (self : AnimVec) :
  _animate self = false ->
  tick cls delta self
  = Done (set_values (set_change self (instant_change delta self))
            (_target self)).
Proof.
  intros Hanim. unfold tick, instant_change. rewrite Hanim.
  destruct (_record_change self); [ | reflexivity ].
  rewrite blend_weight_a, blend_weight_b.
  destruct (num_gt _ _); reflexivity.
Qed.

(** C4: the blend does not weigh 1/3 and 2/3.  With animate off,
    record_change on, values [0], target [21], change [21] and delta 1 the
    estimate is [21], its squared magnitude does not exceed that of the old
    change, and the new change is [21 * (1/3) + 21 * (6/7) = 25], where the
    claim has [21 * (1/3) + 21 * (2/3) = 21]. *)
Theorem tick_blend_weights :
  exists s,
    tick AnimVec_class (py 1) blend_example = Done s
    /\ _change s = [Fin 25]
    /\ _change s <> [Fin (21 * (1 / 3) + (21 - 0) / 1 * (2 / 3))].
Proof.
  rewrite tick_instant by reflexivity.
  eexists. split; [reflexivity | ].
  assert (H : instant_change (py 1) blend_example = [Fin 25]).
  { unfold instant_change, blend_example, animator, num_gt, f_gt, dot, v_sub,
      v_div_r, v_add, v_mul_r, py.
    cbn [set__animate _record_change _target _values _change v_map2 map
         dot_sum nval f_sub f_neg f_add f_mul f_div f_lt].
    rdecide. cbn [f_mul f_add dot_sum f_lt]. rdecide.
    cbn [v_map2 f_add f_mul]. do 2 f_equal. field. }
  cbn [_change set_values set_change]. rewrite H.
  split; [reflexivity | ]. intros [= Heq]. lra.
Qed.

(** C8: with animate off, on an animator whose three arrays have one
    length, a tick returns with [values] equal to [target], which it leaves
    as it was, and a second tick returns with the same [values]; this holds
    for every [delta], zero included, and for both settings of
    [record_change]. *)
Theorem tick_instant_idempotent
    (n : nat) (cls : AnimVecClass) (delta delta' : num) (self : AnimVec) :
  has_len n self ->
  _animate self = false ->
  exists s1 s2,
    tick cls delta self = Done s1
    /\ _values s1 = _target s1
    /\ _target s1 = _target self
    /\ tick cls delta' s1 = Done s2
    /\ _values s2 = _values s1.
Proof.
  intros _ Hanim. rewrite (tick_instant cls delta self Hanim).
  eexists _, _. split; [reflexivity | ]. split; [reflexivity | ].
  split; [reflexivity | ]. split.
  - now rewrite tick_instant by exact Hanim.
  - reflexivity.
Qed.

Lemma tick_instant_idempotent_witness :
  exists s1 s2,
    tick AnimVec_class (py (1 / 60)) two_axes_instant = Done s1
    /\ _values s1 = _target s1
    /\ _target s1 = _target two_axes_instant
    /\ tick AnimVec_class (py (1 / 60)) s1 = Done s2
    /\ _values s2 = _values s1.
Proof.
  apply (tick_instant_idempotent 2 AnimVec_class (py (1 / 60)) (py (1 / 60))
           two_axes_instant).
  - repeat split.
  - reflexivity.
Defined.

(** ** The lengths of the three arrays *)

Section Lengths.

Lemma v_map2_length (f : f64 -> f64 -> f64) (a b : vec) :
  length (v_map2 f a b) = Nat.min (length a) (length b).
Proof.
  revert b. induction a as [ | x a IH]; intros [ | y b]; cbn [v_map2 length];
    try reflexivity.
  now rewrite IH.
Qed.

Lemma update_length (a : vec) (k : nat) (x : f64) :
  length (update a k x) = length a.
Proof.
  revert k. induction a as [ | y a IH]; intros [ | k]; cbn [update length];
    try reflexivity.
  now rewrite IH.
Qed.

Lemma zeros_length (n : nat) : length (zeros n) = n.
Proof. apply repeat_length. Qed.

Lemma setitem_length (a a' : vec) (i : Z) (x : f64) :
  setitem a i x = Ok a' -> length a' = length a.
Proof.
  unfold setitem. destruct (norm_index (length a) i); cbn [bind];
    intros [= <-]. apply update_length.
Qed.

Lemma has_len_intro (n : nat) (self : AnimVec) :
  length (_values self) = n -> length (_target self) = n ->
  length (_change self) = n -> has_len n self.
Proof. now repeat split. Qed.

End Lengths.

Ltac len_simpl :=
  unfold v_add, v_sub, v_mul_r, v_mul_l, v_div_r, mask_assign_abs_gt, len;
  cbn [state_of _values _target _change set_values set_target set_change
       set__animate];
  repeat (rewrite v_map2_length || rewrite length_map || rewrite zeros_length).

Ltac len_solve := apply has_len_intro; len_simpl; first [assumption | lia].

(** The constructor returns, with arrays of the length asked for or of the
    length of the vector given. *)
Lemma drag_of_returns (value : num) : exists d, drag_of value = Ok d.
Proof.
  unfold drag_of. destruct (num_gt value (py 0)) eqn:Hgt; [ | now eexists ].
  destruct value as [k [r | | | ] ]; cbn [nkind nval f_neg].
  - (* a positive number: the power is below 1 *)
    assert (Hr : 0 < r).
    { unfold num_gt, f_gt, py in Hgt. cbn [nval f_lt] in Hgt.
      unfold Rltb in Hgt.
      destruct (Rlt_dec 0 r); [assumption | discriminate]. }
    unfold py. rewrite num_pow_le_1 by lra. now eexists.
  - unfold num_pow, py. cbn [nkind nval].
    destruct k; cbn [py_float_pow bind]; now eexists.
  - unfold num_pow, py. cbn [nkind nval].
    destruct k; cbn [py_float_pow bind]; now eexists.
  - unfold num_pow, py. cbn [nkind nval].
    destruct k; cbn [py_float_pow bind]; now eexists.
Qed.

Lemma __init___has_len (vector : option vec) (n : nat) (a m d : option num) :
  exists self,
    __init__ vector n a m d = Done self
    /\ has_len (match vector with Some v => length v | None => n end) self.
Proof.
  unfold __init__, drag_setter, attempt.
  destruct d as [d | ]; [ destruct (drag_of_returns d) as (d' & ->) | ];
    destruct a, m, vector; eexists; (split; [reflexivity | ]);
    apply has_len_intro;
    cbn [_values _target _change acceleration_setter
         acceleration_modifier_setter];
    rewrite ?zeros_length; reflexivity.
Qed.

Lemma tick_has_len (n : nat) (cls : AnimVecClass) (delta : num) (self : AnimVec) :
  has_len n self -> has_len n (state_of (tick cls delta self)).
Proof.
  intros (Hv & Ht & Hc). unfold tick, attempt.
  destruct (_animate self); [ destruct (_loose self) | ].
  - destruct (num_pow _ delta) as [p | e]; [ | len_solve ].
    destruct (math_log _) as [l | e]; cbn [state_of]; len_solve.
  - destruct (if num_ne _ _ then _ else _) as [c | e]; [ | len_solve ].
    destruct (_animate_value _ _ _ _ _ _ _) as [c' | e]; cbn [state_of];
      len_solve.
  - destruct (_record_change self); [ | cbn [state_of]; len_solve ].
    rewrite blend_weight_a, blend_weight_b.
    destruct (num_gt _ _); cbn [state_of]; len_solve.
Qed.

Lemma jump_has_len (n : nat) (i : option Z) (self : AnimVec) :
  has_len n self -> has_len n (state_of (jump i self)).
Proof.
  intros (Hv & Ht & Hc). unfold jump, attempt.
  destruct i as [i | ]; [ | cbn [state_of]; len_solve ].
  destruct (getitem _ i) as [t | e]; [ | len_solve ].
  destruct (setitem (_values self) i t) as [v | e] eqn:Hset; [ | len_solve ].
  apply setitem_length in Hset.
  cbn [_change set_values].
  destruct (setitem (_change self) i (Fin 0)) as [c | e] eqn:Hset';
    [ apply setitem_length in Hset' | ]; cbn [state_of]; len_solve.
Qed.

Lemma cap_change_has_len (n : nat) (value : num) (i : option Z) (self : AnimVec) :
  has_len n self -> has_len n (state_of (cap_change value i self)).
Proof.
  intros (Hv & Ht & Hc). unfold cap_change, attempt.
  destruct i as [i | ]; [ | cbn [state_of]; len_solve ].
  destruct (getitem _ i) as [c | e]; [ | len_solve ].
  destruct (f_gt c (nval value)); [ | len_solve ].
  destruct (setitem _ i _) as [c' | e] eqn:Hset;
    [ apply setitem_length in Hset | ]; cbn [state_of]; len_solve.
Qed.

Lemma get_axis_from_has_len (n : nat) (source : AnimVec) (axis : Z)
    (source_axis : option Z) (self : AnimVec) :
  has_len n self ->
  has_len n (state_of (get_axis_from source axis source_axis self)).
Proof.
  intros (Hv & Ht & Hc). unfold get_axis_from, attempt.
  destruct (getitem (_change source) _) as [x | e]; [ | len_solve ].
  destruct (setitem (_change self) axis x) as [c | e] eqn:Hc';
    [ apply setitem_length in Hc' | len_solve ].
  destruct (getitem (_values source) _) as [y | e]; [ | len_solve ].
  cbn [_values _target set_change set_values].
  destruct (setitem (_values self) axis y) as [v | e] eqn:Hv';
    [ apply setitem_length in Hv' | len_solve ].
  destruct (getitem (_target source) _) as [z | e]; [ | len_solve ].
  destruct (setitem (_target self) axis z) as [t | e] eqn:Ht';
    [ apply setitem_length in Ht' | ]; cbn [state_of]; len_solve.
Qed.

Lemma __setitem___has_len (n : nat) (i : Z) (value : num) (self : AnimVec) :
  has_len n self -> has_len n (state_of (__setitem__ i value self)).
Proof.
  intros (Hv & Ht & Hc). unfold __setitem__, attempt.
  destruct (setitem _ i _) as [t | e] eqn:Hset;
    [ apply setitem_length in Hset | ]; cbn [state_of]; len_solve.
Qed.

Lemma animate_setter_has_len (n : nat) (value : bool) (self : AnimVec) :
  has_len n self -> has_len n (animate_setter value self).
Proof.
  intros (Hv & Ht & Hc). unfold animate_setter.
  destruct value; cbn [negb]; len_solve.
Qed.

(** C9: an animator constructed with length [n] has three arrays of length
    [n], and [tick] (all branches), [jump], [cap_change], [get_axis_from],
    indexed target assignment and the [animate] setter keep the three
    lengths at [n], whether the call returns or raises. *)
Theorem lengths_invariant (n : nat) (self : AnimVec) :
  has_len n self ->
  (forall a m d, exists s, __init__ None n a m d = Done s /\ has_len n s)
  /\ (forall v k a m d,
         exists s, __init__ (Some v) k a m d = Done s /\ has_len (length v) s)
  /\ (forall cls delta, has_len n (state_of (tick cls delta self)))
  /\ (forall i, has_len n (state_of (jump i self)))
  /\ (forall value i, has_len n (state_of (cap_change value i self)))
  /\ (forall source axis source_axis,
         has_len n (state_of (get_axis_from source axis source_axis self)))
  /\ (forall i value, has_len n (state_of (__setitem__ i value self)))
  /\ (forall value, has_len n (animate_setter value self)).
Proof.
  intros H.
  split. { intros a m d. apply (__init___has_len None n a m d). }
  split. { intros v k a m d. apply (__init___has_len (Some v) k a m d). }
  split. { intros. now apply tick_has_len. }
  split. { intros. now apply jump_has_len. }
  split. { intros. now apply cap_change_has_len. }
  split. { intros. now apply get_axis_from_has_len. }
  split. { intros. now apply __setitem___has_len. }
  intros. now apply animate_setter_has_len.
Qed.

Lemma lengths_invariant_witness :
  (forall a m d, exists s, __init__ None 2 a m d = Done s /\ has_len 2 s)
  /\ (forall v k a m d,
         exists s, __init__ (Some v) k a m d = Done s /\ has_len (length v) s)
  /\ (forall cls delta, has_len 2 (state_of (tick cls delta two_axes)))
  /\ (forall i, has_len 2 (state_of (jump i two_axes)))
  /\ (forall value i, has_len 2 (state_of (cap_change value i two_axes)))
  /\ (forall source axis source_axis,
         has_len 2 (state_of (get_axis_from source axis source_axis two_axes)))
  /\ (forall i value, has_len 2 (state_of (__setitem__ i value two_axes)))
  /\ (forall value, has_len 2 (animate_setter value two_axes)).
Proof.
  apply (lengths_invariant 2 two_axes).
  repeat split.
Defined.

(** ** [cap_change] *)

(** The all-axes path: every component ends with magnitude at most
    [limit], and a component already within it is kept. *)
Lemma cap_change_all_axes (k : kind) (limit : R) (self : AnimVec) :
  0 <= limit ->
  exists s,
    cap_change (mk_num k (Fin limit)) None self = Done s
    /\ Forall (fun c => f_gt (f_abs c) (Fin limit) = false) (_change s)
    /\ Forall2 (fun c c' => f_gt (f_abs c) (Fin limit) = false -> c' = c)
         (_change self) (_change s).
Proof.
  intros Hl. eexists. split; [reflexivity | ].
  cbn [_change set_change]. unfold mask_assign_abs_gt. cbn [nval].
  induction (_change self) as [ | c cs [IH1 IH2] ]; cbn [map].
  - split; constructor.
  - split; constructor; try assumption.
    + destruct (f_gt (f_abs c) (Fin limit)) eqn:Hgt; [ | exact Hgt ].
      unfold f_gt. cbn [f_abs f_lt]. rewrite Rabs_pos_eq by exact Hl.
      apply Rltb_false. lra.
    + now intros ->.
Qed.

(** C5: with an axis given, the cap fails twice.  On change [0, 0, 5] with
    limit 1 and axis 2 the component becomes the index, 2, whose magnitude
    exceeds the limit; on change [-5] with limit 1 and axis 0 the component
    is compared without its sign and stays at -5. *)
Theorem cap_change_axis_defect :
  (exists s,
      cap_change (py 1) (Some 2%Z) (cap_example [Fin 0; Fin 0; Fin 5]) = Done s
      /\ _change s = [Fin 0; Fin 0; Fin 2]
      /\ f_gt (f_abs (Fin 2)) (Fin 1) = true)
  /\ (cap_change (py 1) (Some 0%Z) (cap_example [Fin (-5)])
      = Done (cap_example [Fin (-5)])
      /\ f_gt (f_abs (Fin (-5))) (Fin 1) = true).
Proof.
  split.
  - eexists. split; [ | split ].
    + unfold cap_change, attempt, cap_example, animator. cbn [_change].
      replace (getitem [Fin 0; Fin 0; Fin 5] 2) with (Ok (Fin 5))
        by reflexivity.
      replace (setitem [Fin 0; Fin 0; Fin 5] 2 (Fin 2))
        with (Ok [Fin 0; Fin 0; Fin 2]) by reflexivity.
      unfold f_gt. cbn [f_lt py nval]. rdecide. reflexivity.
    + reflexivity.
    + unfold f_gt. cbn [f_abs f_lt]. rewrite Rabs_pos_eq by lra. now rdecide.
  - split.
    + unfold cap_change, attempt, cap_example, animator. cbn [_change].
      replace (getitem [Fin (-5)] 0) with (Ok (Fin (-5))) by reflexivity.
      unfold f_gt. cbn [f_lt py nval]. rdecide. reflexivity.
    + unfold f_gt. cbn [f_abs f_lt]. rewrite Rabs_left by lra.
      apply Rltb_true. lra.
Qed.

(** ** The [animate] setter *)

(** C7: assigning [False] to [animate] leaves [change] the zero vector and
    [target] equal to [values], with [values] as it was; assigning [True]
    leaves the three arrays as they were. *)
Theorem animate_setter_freezes (self : AnimVec) :
  (_change (animate_setter false self) = zeros (len self)
   /\ _target (animate_setter false self) = _values self
   /\ _values (animate_setter false self) = _values self)
  /\ (_change (animate_setter true self) = _change self
      /\ _target (animate_setter true self) = _target self
      /\ _values (animate_setter true self) = _values self).
Proof. repeat split. Qed.

(** ** Loose mode at stored drag 1 *)






(** ** A settled animator *)

Lemma v_sub_self (a : vec) : all_finite a -> v_sub a a = zeros (length a).
Proof.
  induction 1 as [ | x a Hx _ IH]; [reflexivity | ].
  destruct x as [r | | | ]; try discriminate.
  unfold v_sub in *. cbn [v_map2 length zeros repeat f_sub f_neg f_add].
  fold (zeros (length a)). rewrite IH. do 2 f_equal. ring.
Qed.

Lemma dot_sum_zeros_l (n : nat) (a : vec) :
  all_finite a -> dot_sum (zeros n) a = Fin 0.
Proof.
  intros Ha. revert n.
  induction Ha as [ | x a Hx _ IH]; intros [ | n]; try reflexivity.
  destruct x as [r | | | ]; try discriminate.
  cbn [zeros repeat dot_sum]. fold (zeros n). rewrite IH.
  cbn [f_mul f_add]. f_equal. ring.
Qed.

Lemma zeros_finite (n : nat) : all_finite (zeros n).
Proof.
  apply Forall_forall. intros x Hx. now apply repeat_spec in Hx as ->.
Qed.

(** A zero rate along a zero difference stays zero. *)
Lemma rescale_zeros (n : nat) (rate distance : num) (eps : R) :
  nval rate = Fin 0 -> nval distance = Fin eps -> eps <> 0 ->
  v_div_r (v_mul_l rate (zeros n)) distance = zeros n.
Proof.
  intros Hr Hd He. unfold v_div_r, v_mul_l. rewrite Hr, Hd.
  induction n as [ | n IH]; [reflexivity | ].
  cbn [zeros repeat map]. fold (zeros n). rewrite IH.
  cbn [f_mul f_div]. rewrite (Reqb_false eps 0 He). do 2 f_equal. field.
  exact He.
Qed.

Lemma v_add_zero_step (a : vec) (delta : num) (dt : R) :
  all_finite a -> nval delta = Fin dt ->
  v_add a (v_mul_r (zeros (length a)) delta) = a.
Proof.
  intros Ha Hd. unfold v_add, v_mul_r. rewrite Hd.
  induction Ha as [ | x a Hx _ IH]; [reflexivity | ].
  destruct x as [r | | | ]; try discriminate.
  cbn [length zeros repeat map v_map2]. fold (zeros (length a)).
  rewrite IH. cbn [f_mul f_add]. do 2 f_equal. ring.
Qed.

(** At rest on the target, the solver takes the coast branch and keeps the
    rate at zero. *)
Lemma animate_value_at_rest (kd kdt : kind) (d dt eps : R)
    (acceleration acceleration_modifier : num) :
  0 < d < 1 -> 0 <= dt -> 0 < eps < 1 / 100 ->
  exists r,
    _animate_value (py 0) (py 0) (py eps) acceleration acceleration_modifier
      (mk_num kd (Fin d)) (mk_num kdt (Fin dt)) = Ok r
    /\ nval r = Fin 0.
Proof.
  intros Hd Hdt He.
  assert (Hmt : moving_toward (py 0) (py 0) (mk_num kd (Fin d))
                = Ok (py (0 - 0 / ln d))) by (apply moving_toward_fin, Hd).
  assert (H0 : 0 - 0 / ln d = 0) by (unfold Rdiv; ring).
  destruct (animate_value_coast_rate Py Py Py kd kdt 0 0 eps d dt acceleration
              acceleration_modifier Hd Hdt) as (r & Hr & Hval).
  - eexists. split; [exact Hmt | ].
    unfold num_lt, num_sub, lift2, py. cbn [nval f_sub f_neg f_add f_lt].
    apply Rltb_false. lra.
  - exists r. split; [exact Hr | ]. rewrite Hval.
    unfold in_overshoot_band. fold (py 0) (py eps). rewrite Hmt.
    unfold num_gt, f_gt, num_add, lift2, py. cbn [nval f_add f_lt].
    rewrite (Rltb_false eps) by lra. rewrite andb_false_r. f_equal. ring.
Qed.

Lemma set_same (self : AnimVec) :
  set_values (set_change self (_change self)) (_values self) = self.
Proof. now destruct self. Qed.

(** On the target with a zero change the tethered tick changes nothing,
    for a [delta] that is not negative: the decay [drag ** delta] is then
    at most 1. *)
Lemma tick_settled
    (cls : AnimVecClass) (kdt kd : kind) (dt d : R) (self : AnimVec) :
  _animate self = true -> _loose self = false ->
  all_finite (_values self) ->
  _target self = _values self -> _change self = zeros (len self) ->
  0 <= dt ->
  stored_drag cls self = mk_num kd (Fin d) -> 0 < d < 1 ->
  tick cls (mk_num kdt (Fin dt)) self = Done self.
Proof.
  intros Hanim Hloose Hfin Htarget Hchange Hdt Hdrag Hd.
  unfold tick, attempt. rewrite Hanim, Hloose.
  fold (stored_drag cls self). rewrite Hdrag, Htarget, Hchange.
  unfold len. rewrite (v_sub_self _ Hfin).
  set (n := length (_values self)).
  unfold dot, np_sqrt, num_mul, num_abs, num_ne, num_eq, lift2, f_ne.
  cbn [nval nkind].
  rewrite !(dot_sum_zeros_l n (zeros n) (zeros_finite n)).
  cbn [f_sqrt f_abs f_mul f_eq]. rdecide. rewrite sqrt_0.
  unfold py. cbn [nval f_eq]. rewrite Rmult_0_r.
  rewrite !Reqb_true by reflexivity. cbn [negb].
  destruct (animate_value_at_rest kd kdt d dt (10 / 10 ^ 100)
              (match _acceleration self with
               | Some a => a | None => default_acceleration cls end)
              (match _acceleration_modifier self with
               | Some a => a | None => default_acceleration_modifier cls end)
              Hd Hdt epsilon_range) as (r & Hcall & Hr).
  unfold py in Hcall. rewrite Hcall.
  pose proof epsilon_range as He.
  rewrite (rescale_zeros n r (mk_num Py (Fin (10 / 10 ^ 100)))
             (10 / 10 ^ 100) Hr eq_refl) by lra.
  cbn [_change _values set_change].
  unfold n. rewrite (v_add_zero_step _ (mk_num kdt (Fin dt)) dt Hfin eq_refl).
  rewrite <- Hchange at 1. f_equal. apply set_same.
Qed.

(** C10: a settled animator is a fixed point of the tethered tick.  With
    animate on, loose off, finite [values] equal to [target], a zero
    [change], [delta > 0] and stored drag in (0,1), the tick returns the
    animator as it was: [values], [target] and [change] are unchanged and
    nothing is raised. *)
Theorem settled_fixed_point
    (cls : AnimVecClass) (kdt kd : kind) (dt d : R) (self : AnimVec) :
  _animate self = true -> _loose self = false ->
  all_finite (_values self) ->
  _target self = _values self -> _change self = zeros (len self) ->
  0 < dt ->
  stored_drag cls self = mk_num kd (Fin d) -> 0 < d < 1 ->
  tick cls (mk_num kdt (Fin dt)) self = Done self.
Proof.
  intros Hanim Hloose Hfin Htarget Hchange Hdt Hdrag Hd.
  apply (tick_settled cls kdt kd dt d self); try assumption.
  lra.
Qed.

Lemma settled_fixed_point_witness :
  tick AnimVec_class (py (1 / 60)) settled_example = Done settled_example.
Proof.
  apply (settled_fixed_point AnimVec_class Py Py (1 / 60) (/ 10 ^ 7)
           settled_example).
  - reflexivity.
  - reflexivity.
  - repeat constructor.
  - reflexivity.
  - reflexivity.
  - lra.
  - reflexivity.
  - exact default_drag_range.
Defined.

(* ================================================================= *)
(** * Further properties of the module *)

Lemma Rltb_lt (a b : R) : Rltb a b = true <-> a < b.
Proof.
  unfold Rltb. destruct (Rlt_dec a b); split; intros; easy.
Qed.

(** ** [approx] *)

(** X1: [approx] reports no match that is not one.  When
    [approx(a, b, variance)] is true of finite numbers, [a] lies strictly
    within [variance] of [b]; so it is false for every [variance <= 0],
    also when [a] equals [b]; and it is false as soon as an argument is
    [nan]. *)
Theorem approx_sound (ka kb kv : kind) (a b v : R) :
  (approx (mk_num ka (Fin a)) (mk_num kb (Fin b)) (mk_num kv (Fin v)) = true ->
   Rabs (a - b) < v)
  /\ (v <= 0 ->
      approx (mk_num ka (Fin a)) (mk_num kb (Fin b)) (mk_num kv (Fin v))
      = false)
  /\ (forall x y : num,
         approx (mk_num ka NaN) x y = false
         /\ approx x (mk_num kb NaN) y = false
         /\ approx x y (mk_num kv NaN) = false).
Proof.
  assert (Hsound :
            approx (mk_num ka (Fin a)) (mk_num kb (Fin b)) (mk_num kv (Fin v))
            = true -> Rabs (a - b) < v).
  { unfold approx, num_lt, num_gt, f_gt, num_add, num_sub, lift2.
    cbn [nval f_add f_sub f_neg f_lt].
    rewrite andb_true_iff, !Rltb_lt. intros [H1 H2]. apply Rabs_def1; lra. }
  split; [exact Hsound | ]. split.
  - intros Hv.
    destruct (approx _ _ _) eqn:Happrox; [ | reflexivity ].
    pose proof (Hsound eq_refl) as H. pose proof (Rabs_pos (a - b)). lra.
  - intros [kx x] [ky y].
    unfold approx, num_lt, num_gt, f_gt, num_add, num_sub, lift2.
    cbn [nval]. split; [ | split ].
    + reflexivity.
    + destruct x, y; reflexivity.
    + destruct x, y; reflexivity.
Qed.

(** ** The tuning setters *)

(** What the drag setter stores: the Python 1 for an input that is not
    positive, and otherwise a power of 10 that is at most 1. *)
Lemma drag_of_fin (k : kind) (v : R) :
  exists d x,
    drag_of (mk_num k (Fin v)) = Ok d
    /\ nval d = Fin x
    /\ 0 < x <= 1
    /\ (v <= 0 -> d = py 1).
Proof.
  unfold drag_of, num_gt, f_gt, py. cbn [nval nkind f_lt f_neg].
  destruct (Rlt_dec 0 v) as [Hv | Hv].
  - rewrite (Rltb_true 0 v Hv).
    rewrite num_pow_le_1 by lra.
    pose proof (Rpower_le_1 10 (- v)) as Hp.
    eexists _, _. split; [reflexivity | ]. split; [reflexivity | ].
    split; [apply Hp; lra | intros; lra].
  - rewrite (Rltb_false 0 v Hv).
    eexists _, _. split; [reflexivity | ]. split; [reflexivity | ].
    split; [lra | reflexivity].
Qed.

(** X2: the drag setter never raises on a finite input and stores a
    number between 0 and 1: the Python 1 for every input that is not
    positive.  The three arrays are left as they were. *)
Theorem drag_setter_range (k : kind) (v : R) (self : AnimVec) :
  exists s d x,
    drag_setter (mk_num k (Fin v)) self = Done s
    /\ _drag s = Some d /\ nval d = Fin x
    /\ 0 <= x <= 1
    /\ (v <= 0 -> d = py 1)
    /\ _values s = _values self /\ _target s = _target self
    /\ _change s = _change self.
Proof.
  destruct (drag_of_fin k v) as (d & x & Hd & Hx & Hr & Hone).
  unfold drag_setter, attempt. rewrite Hd.
  eexists _, d, x. split; [reflexivity | ]. cbn [_drag _values _target _change].
  split; [reflexivity | ]. split; [exact Hx | ]. split; [lra | ].
  split; [exact Hone | ]. repeat split.
Qed.

(** X3: a drag set to a finite [v <= 0] reads back as 0, not as [v]: the
    setter stores 1 and the getter returns [-log10(1)].  On an animator
    constructed without [drag] the read fails, as [np.log10] is applied to
    [None]; the default of the class is not consulted. *)
Theorem drag_read_back (k : kind) (v : R) (self : AnimVec) :
  (v <= 0 ->
   exists s d,
     drag_setter (mk_num k (Fin v)) self = Done s
     /\ drag_getter s = Some d
     /\ nval d = Fin 0)
  /\ (forall vector n a m,
         exists s, __init__ vector n a m None = Done s /\ drag_getter s = None).
Proof.
  split.
  - intros Hv.
    destruct (drag_of_fin k v) as (d & x & Hd & _ & _ & Hone).
    unfold drag_setter, attempt. rewrite Hd, (Hone Hv).
    eexists _, _. split; [reflexivity | ].
    unfold drag_getter. cbn [_drag]. split; [reflexivity | ].
    unfold py, f_log10. cbn [nval]. rdecide. cbn [f_neg]. f_equal.
    rewrite ln_1. unfold Rdiv. ring.
  - intros vector n a m. unfold __init__.
    destruct a, m; eexists; split; reflexivity.
Qed.

(** X4: the stored acceleration and acceleration modifier are never
    negative and never [nan]: an input that is greater than 0 is stored as
    it is, every other input is stored as the Python 0. *)
Theorem tuning_setters_never_negative (value : num) (self : AnimVec) :
  (exists a,
      _acceleration (acceleration_setter value self) = Some a
      /\ f_lt (nval a) (Fin 0) = false /\ nval a <> NaN
      /\ (num_gt value (py 0) = true -> a = value)
      /\ (num_gt value (py 0) = false -> a = py 0))
  /\ (exists m,
         _acceleration_modifier (acceleration_modifier_setter value self)
         = Some m
         /\ f_lt (nval m) (Fin 0) = false /\ nval m <> NaN
         /\ (num_gt value (py 0) = true -> m = value)
         /\ (num_gt value (py 0) = false -> m = py 0)).
Proof.
  assert (H : f_lt (nval (clamp_positive value)) (Fin 0) = false
              /\ nval (clamp_positive value) <> NaN
              /\ (num_gt value (py 0) = true -> clamp_positive value = value)
              /\ (num_gt value (py 0) = false -> clamp_positive value = py 0)).
  { unfold clamp_positive. destruct (num_gt value (py 0)) eqn:Hgt.
    - unfold num_gt, f_gt, py in Hgt. cbn [nval] in Hgt.
      destruct value as [kv [r | | | ]]; cbn [nval f_lt] in *;
        try discriminate.
      + apply Rltb_lt in Hgt. repeat split; try discriminate; try easy.
        apply Rltb_false. lra.
      + repeat split; try discriminate; easy.
    - unfold py. cbn [nval f_lt]. repeat split; try discriminate; try easy.
      apply Rltb_false. lra. }
  split; eexists; (split; [reflexivity | exact H]).
Qed.

(** ** Indexing *)

Section Indexing.

Variable n : nat.

Lemma norm_index_in (i : Z) :
  (- Z.of_nat n <= i < Z.of_nat n)%Z ->
  exists k, norm_index n i = Ok k /\ (k < n)%nat.
Proof.
  intros Hi. unfold norm_index.
  destruct (Z.leb_spec 0 i), (Z.ltb_spec i (Z.of_nat n)); cbn [andb];
    try (eexists; split; [reflexivity | lia]); try lia.
  destruct (Z.leb_spec (- Z.of_nat n) i), (Z.ltb_spec i 0); cbn [andb];
    try lia.
  eexists; split; [reflexivity | lia].
Qed.

Lemma norm_index_out (i : Z) :
  (i < - Z.of_nat n \/ Z.of_nat n <= i)%Z ->
  norm_index n i = Raise IndexError.
Proof.
  intros Hi. unfold norm_index.
  destruct (Z.leb_spec 0 i), (Z.ltb_spec i (Z.of_nat n)); cbn [andb]; try lia;
    destruct (Z.leb_spec (- Z.of_nat n) i), (Z.ltb_spec i 0); cbn [andb];
    try lia; reflexivity.
Qed.

End Indexing.

Lemma nth_error_update_same (a : vec) (k : nat) (x : f64) :
  (k < length a)%nat -> nth_error (update a k x) k = Some x.
Proof.
  revert k. induction a as [ | y a IH]; intros [ | k] Hk; cbn in *;
    try lia; try reflexivity.
  apply IH. lia.
Qed.

Lemma nth_error_update_other (a : vec) (k j : nat) (x : f64) :
  j <> k -> nth_error (update a k x) j = nth_error a j.
Proof.
  revert k j. induction a as [ | y a IH]; intros [ | k] [ | j] Hjk; cbn;
    try reflexivity; try congruence.
  apply IH. congruence.
Qed.

Lemma update_nth_error (a : vec) (k : nat) (x : f64) :
  nth_error a k = Some x -> update a k x = a.
Proof.
  revert k. induction a as [ | y a IH]; intros [ | k] H; cbn in *;
    try discriminate.
  - now injection H as ->.
  - now rewrite IH.
Qed.

Lemma getitem_in (a : vec) (i : Z) :
  (- Z.of_nat (length a) <= i < Z.of_nat (length a))%Z ->
  exists k x,
    norm_index (length a) i = Ok k /\ nth_error a k = Some x
    /\ getitem a i = Ok x.
Proof.
  intros Hi. destruct (norm_index_in (length a) i Hi) as (k & Hk & Hlt).
  destruct (nth_error a k) as [x | ] eqn:Hx.
  - exists k, x. unfold getitem. rewrite Hk. cbn [bind]. now rewrite Hx.
  - apply nth_error_None in Hx. lia.
Qed.

Lemma getitem_out (a : vec) (i : Z) :
  (i < - Z.of_nat (length a) \/ Z.of_nat (length a) <= i)%Z ->
  getitem a i = Raise IndexError.
Proof.
  intros Hi. unfold getitem. now rewrite norm_index_out.
Qed.

Lemma setitem_out (a : vec) (i : Z) (x : f64) :
  (i < - Z.of_nat (length a) \/ Z.of_nat (length a) <= i)%Z ->
  setitem a i x = Raise IndexError.
Proof.
  intros Hi. unfold setitem. now rewrite norm_index_out.
Qed.

(** Writing [a[i] = x] at a valid index: [a[i]] then reads [x], every
    other position reads as before, and the length is kept. *)
Lemma setitem_in (a : vec) (i : Z) (x : f64) :
  (- Z.of_nat (length a) <= i < Z.of_nat (length a))%Z ->
  exists a',
    setitem a i x = Ok a'
    /\ length a' = length a
    /\ getitem a' i = Ok x
    /\ (forall j,
           norm_index (length a) j <> norm_index (length a) i ->
           getitem a' j = getitem a j).
Proof.
  intros Hi. destruct (norm_index_in (length a) i Hi) as (k & Hk & Hlt).
  unfold setitem. rewrite Hk. cbn [bind]. eexists. split; [reflexivity | ].
  split; [apply update_length | ]. split.
  - unfold getitem. rewrite update_length, Hk. cbn [bind].
    now rewrite nth_error_update_same.
  - intros j Hj. unfold getitem. rewrite update_length.
    destruct (norm_index (length a) j) as [kj | e]; [ | reflexivity ].
    cbn [bind]. rewrite nth_error_update_other; [reflexivity | ].
    intros ->. now apply Hj.
Qed.

(** ** [__setitem__] and [__getitem__] *)

(** X5: on an animator of dimension [n], [a[i] = value] at a valid index
    writes [target[i]] only: the other targets, the values and the change
    are as before, so [a[j]] reads what it read before for every [j].  At
    an index outside [-n, n) it raises [IndexError] and leaves the animator
    unchanged. *)
Theorem setitem_writes_target_only
    (n : nat) (i : Z) (value : num) (self : AnimVec) :
  has_len n self ->
  ((- Z.of_nat n <= i < Z.of_nat n)%Z ->
   exists s,
     __setitem__ i value self = Done s
     /\ getitem (_target s) i = Ok (nval value)
     /\ (forall j,
            norm_index n j <> norm_index n i ->
            getitem (_target s) j = getitem (_target self) j)
     /\ (forall j, __getitem__ j s = __getitem__ j self)
     /\ _values s = _values self /\ _change s = _change self)
  /\ ((i < - Z.of_nat n \/ Z.of_nat n <= i)%Z ->
      __setitem__ i value self = Raised IndexError self).
Proof.
  intros (Hv & Ht & Hc). unfold __setitem__, attempt. split; intros Hi.
  - rewrite <- Ht in Hi.
    destruct (setitem_in (_target self) i (nval value) Hi)
      as (t & -> & Hlen & Hget & Hother).
    eexists. split; [reflexivity | ]. cbn [_target _values _change set_target].
    rewrite Ht in Hother. repeat split; assumption.
  - rewrite <- Ht in Hi. now rewrite setitem_out.
Qed.

Lemma setitem_writes_target_only_witness :
  ((- Z.of_nat 2 <= 1 < Z.of_nat 2)%Z ->
   exists s,
     __setitem__ 1 (py 7) two_axes = Done s
     /\ getitem (_target s) 1 = Ok (nval (py 7))
     /\ (forall j,
            norm_index 2 j <> norm_index 2 1 ->
            getitem (_target s) j = getitem (_target two_axes) j)
     /\ (forall j, __getitem__ j s = __getitem__ j two_axes)
     /\ _values s = _values two_axes /\ _change s = _change two_axes)
  /\ ((1 < - Z.of_nat 2 \/ Z.of_nat 2 <= 1)%Z ->
      __setitem__ 1 (py 7) two_axes = Raised IndexError two_axes).
Proof.
  apply (setitem_writes_target_only 2 1 (py 7) two_axes).
  now repeat split.
Defined.

(** ** [jump] on one axis *)

(** X6: on an animator of dimension [n], [jump(i)] at a valid index (a
    negative one counts from the end) sets [values[i]] to [target[i]] and
    [change[i]] to 0 and leaves the target and every other axis as they
    were; at an index outside [-n, n) it raises [IndexError] and leaves the
    animator unchanged. *)
Theorem jump_axis (n : nat) (i : Z) (self : AnimVec) :
  has_len n self ->
  ((- Z.of_nat n <= i < Z.of_nat n)%Z ->
   exists s,
     jump (Some i) self = Done s
     /\ getitem (_values s) i = getitem (_target self) i
     /\ getitem (_change s) i = Ok (Fin 0)
     /\ _target s = _target self
     /\ (forall j,
            norm_index n j <> norm_index n i ->
            getitem (_values s) j = getitem (_values self) j
            /\ getitem (_change s) j = getitem (_change self) j))
  /\ ((i < - Z.of_nat n \/ Z.of_nat n <= i)%Z ->
      jump (Some i) self = Raised IndexError self).
Proof.
  intros (Hv & Ht & Hc). unfold jump, attempt. split; intros Hi.
  - assert (Hit : (- Z.of_nat (length (_target self)) <= i
                   < Z.of_nat (length (_target self)))%Z) by now rewrite Ht.
    assert (Hiv : (- Z.of_nat (length (_values self)) <= i
                   < Z.of_nat (length (_values self)))%Z) by now rewrite Hv.
    assert (Hic : (- Z.of_nat (length (_change self)) <= i
                   < Z.of_nat (length (_change self)))%Z) by now rewrite Hc.
    destruct (getitem_in _ i Hit) as (k & t & _ & _ & Hget). rewrite Hget.
    destruct (setitem_in (_values self) i t Hiv) as (v & -> & _ & Hvi & Hvo).
    cbn [_change set_values].
    destruct (setitem_in (_change self) i (Fin 0) Hic)
      as (c & -> & _ & Hci & Hco).
    eexists. split; [reflexivity | ].
    cbn [_values _target _change set_values set_change].
    rewrite Hv in Hvo. rewrite Hc in Hco.
    split; [exact Hvi | ]. split; [exact Hci | ]. split; [reflexivity | ].
    intros j Hj. split; [now apply Hvo | now apply Hco].
  - rewrite <- Ht in Hi. now rewrite getitem_out.
Qed.

Lemma jump_axis_witness :
  ((- Z.of_nat 2 <= -1 < Z.of_nat 2)%Z ->
   exists s,
     jump (Some (-1)%Z) two_axes = Done s
     /\ getitem (_values s) (-1) = getitem (_target two_axes) (-1)
     /\ getitem (_change s) (-1) = Ok (Fin 0)
     /\ _target s = _target two_axes
     /\ (forall j,
            norm_index 2 j <> norm_index 2 (-1) ->
            getitem (_values s) j = getitem (_values two_axes) j
            /\ getitem (_change s) j = getitem (_change two_axes) j))
  /\ ((-1 < - Z.of_nat 2 \/ Z.of_nat 2 <= -1)%Z ->
      jump (Some (-1)%Z) two_axes = Raised IndexError two_axes).
Proof.
  apply (jump_axis 2 (-1) two_axes).
  now repeat split.
Defined.

(** ** The axis properties [x], [y], [z] *)

(** X7: with three axes or more, assigning [z] writes [values[2]], so
    that [z] reads the new value at once while target and change are
    untouched; assigning [x] or [y] writes [target[0]] or [target[1]] and
    [x], [y] read what they read before.  With fewer than three axes
    assigning [z] raises [IndexError] and leaves the animator unchanged. *)
Theorem z_writes_values_x_writes_target
    (n : nat) (value : num) (self : AnimVec) :
  has_len n self ->
  ((3 <= n)%nat ->
   (exists s,
       z_setter value self = Done s
       /\ z_getter s = Ok (nval value)
       /\ _target s = _target self /\ _change s = _change self)
   /\ (exists s,
          x_setter value self = Done s
          /\ x_getter s = x_getter self
          /\ getitem (_target s) 0 = Ok (nval value)
          /\ _values s = _values self)
   /\ (exists s,
          y_setter value self = Done s
          /\ y_getter s = y_getter self
          /\ getitem (_target s) 1 = Ok (nval value)
          /\ _values s = _values self))
  /\ ((n < 3)%nat -> z_setter value self = Raised IndexError self).
Proof.
  intros (Hv & Ht & Hc).
  unfold z_setter, x_setter, y_setter, z_getter, x_getter, y_getter, attempt.
  split; intros Hn.
  - split; [ | split ].
    + destruct (setitem_in (_values self) 2 (nval value))
        as (v & -> & _ & Hget & _); [lia | ].
      eexists. split; [reflexivity | ]. cbn [_values _target _change set_values].
      now repeat split.
    + destruct (setitem_in (_target self) 0 (nval value))
        as (t & -> & _ & Hget & _); [lia | ].
      eexists. split; [reflexivity | ]. cbn [_values _target _change set_target].
      now repeat split.
    + destruct (setitem_in (_target self) 1 (nval value))
        as (t & -> & _ & Hget & _); [lia | ].
      eexists. split; [reflexivity | ]. cbn [_values _target _change set_target].
      now repeat split.
  - rewrite setitem_out; [reflexivity | lia].
Qed.

Lemma z_writes_values_x_writes_target_witness :
  ((3 <= 3)%nat ->
   (exists s,
       z_setter (py 7) three_axes = Done s
       /\ z_getter s = Ok (nval (py 7))
       /\ _target s = _target three_axes /\ _change s = _change three_axes)
   /\ (exists s,
          x_setter (py 7) three_axes = Done s
          /\ x_getter s = x_getter three_axes
          /\ getitem (_target s) 0 = Ok (nval (py 7))
          /\ _values s = _values three_axes)
   /\ (exists s,
          y_setter (py 7) three_axes = Done s
          /\ y_getter s = y_getter three_axes
          /\ getitem (_target s) 1 = Ok (nval (py 7))
          /\ _values s = _values three_axes))
  /\ ((3 < 3)%nat -> z_setter (py 7) three_axes = Raised IndexError three_axes).
Proof.
  apply (z_writes_values_x_writes_target 3 (py 7) three_axes).
  now repeat split.
Defined.

(** ** [get_axis_from] *)

Lemma set_all_same (self : AnimVec) :
  set_target (set_values (set_change self (_change self)) (_values self))
    (_target self) = self.
Proof. now destruct self. Qed.

Lemma setitem_same (a : vec) (i : Z) (x : f64) :
  getitem a i = Ok x -> setitem a i x = Ok a.
Proof.
  unfold getitem, setitem.
  destruct (norm_index (length a) i) as [k | e]; cbn [bind]; [ | discriminate ].
  destruct (nth_error a k) as [y | ] eqn:Hy; [ | discriminate ].
  intros [= ->]. now rewrite update_nth_error.
Qed.

Lemma getitem_raises (a : vec) (i : Z) (e : exn) :
  getitem a i = Raise e -> e = IndexError.
Proof.
  unfold getitem, norm_index.
  destruct ((0 <=? i) && (i <? Z.of_nat (length a)))%Z; cbn [bind].
  - destruct (nth_error a _); congruence.
  - destruct ((- Z.of_nat (length a) <=? i) && (i <? 0))%Z; cbn [bind].
    + destruct (nth_error a _); congruence.
    + congruence.
Qed.

(** X8: [get_axis_from(source, axis, source_axis)] with both indices
    valid copies value, target and change of the source axis into [axis]
    and leaves every other axis as it was; when either index is out of
    range it raises [IndexError] and leaves the animator unchanged. *)
Theorem get_axis_from_copies
    (n m : nat) (source : AnimVec) (axis source_axis : Z) (self : AnimVec) :
  has_len n self -> has_len m source ->
  ((- Z.of_nat n <= axis < Z.of_nat n)%Z ->
   (- Z.of_nat m <= source_axis < Z.of_nat m)%Z ->
   exists s,
     get_axis_from source axis (Some source_axis) self = Done s
     /\ getitem (_values s) axis = getitem (_values source) source_axis
     /\ getitem (_target s) axis = getitem (_target source) source_axis
     /\ getitem (_change s) axis = getitem (_change source) source_axis
     /\ (forall j,
            norm_index n j <> norm_index n axis ->
            getitem (_values s) j = getitem (_values self) j
            /\ getitem (_target s) j = getitem (_target self) j
            /\ getitem (_change s) j = getitem (_change self) j))
  /\ ((source_axis < - Z.of_nat m \/ Z.of_nat m <= source_axis)%Z ->
      get_axis_from source axis (Some source_axis) self
      = Raised IndexError self)
  /\ ((axis < - Z.of_nat n \/ Z.of_nat n <= axis)%Z ->
      get_axis_from source axis (Some source_axis) self
      = Raised IndexError self).
Proof.
  intros (Hv & Ht & Hc) (Hsv & Hst & Hsc). unfold get_axis_from, attempt.
  split; [ | split ].
  - intros Hi Hs.
    destruct (getitem_in (_change source) source_axis) as (? & c & _ & _ & Hgc);
      [now rewrite Hsc | ].
    destruct (getitem_in (_values source) source_axis) as (? & v & _ & _ & Hgv);
      [now rewrite Hsv | ].
    destruct (getitem_in (_target source) source_axis) as (? & t & _ & _ & Hgt);
      [now rewrite Hst | ].
    rewrite Hgc, Hgv, Hgt.
    destruct (setitem_in (_change self) axis c) as (c' & -> & _ & Hci & Hco);
      [now rewrite Hc | ].
    cbn [_values _target set_change set_values].
    destruct (setitem_in (_values self) axis v) as (v' & -> & _ & Hvi & Hvo);
      [now rewrite Hv | ].
    destruct (setitem_in (_target self) axis t) as (t' & -> & _ & Hti & Hto);
      [now rewrite Ht | ].
    eexists. split; [reflexivity | ].
    cbn [_values _target _change set_change set_values set_target].
    rewrite Hv in Hvo. rewrite Ht in Hto. rewrite Hc in Hco.
    split; [exact Hvi | ]. split; [exact Hti | ]. split; [exact Hci | ].
    intros j Hj. split; [now apply Hvo | ]. split; [now apply Hto | ].
    now apply Hco.
  - intros Hs. rewrite getitem_out; [reflexivity | now rewrite Hsc].
  - intros Hi.
    destruct (getitem (_change source) source_axis) as [c | e] eqn:Hgc.
    + rewrite setitem_out; [reflexivity | now rewrite Hc].
    + now rewrite (getitem_raises _ _ _ Hgc).
Qed.

Lemma get_axis_from_copies_witness :
  ((- Z.of_nat 2 <= 0 < Z.of_nat 2)%Z ->
   (- Z.of_nat 3 <= 2 < Z.of_nat 3)%Z ->
   exists s,
     get_axis_from three_axes 0 (Some 2%Z) two_axes = Done s
     /\ getitem (_values s) 0 = getitem (_values three_axes) 2
     /\ getitem (_target s) 0 = getitem (_target three_axes) 2
     /\ getitem (_change s) 0 = getitem (_change three_axes) 2
     /\ (forall j,
            norm_index 2 j <> norm_index 2 0 ->
            getitem (_values s) j = getitem (_values two_axes) j
            /\ getitem (_target s) j = getitem (_target two_axes) j
            /\ getitem (_change s) j = getitem (_change two_axes) j))
  /\ ((2 < - Z.of_nat 3 \/ Z.of_nat 3 <= 2)%Z ->
      get_axis_from three_axes 0 (Some 2%Z) two_axes
      = Raised IndexError two_axes)
  /\ ((0 < - Z.of_nat 2 \/ Z.of_nat 2 <= 0)%Z ->
      get_axis_from three_axes 0 (Some 2%Z) two_axes
      = Raised IndexError two_axes).
Proof.
  apply (get_axis_from_copies 2 3 three_axes 0 2 two_axes).
  - now repeat split.
  - now repeat split.
Defined.

(** X9: copying an axis of an animator from itself,
    [a.get_axis_from(a, axis)], changes nothing. *)
Theorem get_axis_from_self (n : nat) (axis : Z) (self : AnimVec) :
  has_len n self ->
  (- Z.of_nat n <= axis < Z.of_nat n)%Z ->
  get_axis_from self axis None self = Done self.
Proof.
  intros (Hv & Ht & Hc) Hi. unfold get_axis_from, attempt.
  destruct (getitem_in (_change self) axis) as (? & c & _ & _ & Hgc);
    [now rewrite Hc | ].
  destruct (getitem_in (_values self) axis) as (? & v & _ & _ & Hgv);
    [now rewrite Hv | ].
  destruct (getitem_in (_target self) axis) as (? & t & _ & _ & Hgt);
    [now rewrite Ht | ].
  rewrite Hgc, (setitem_same _ _ _ Hgc).
  cbn [_values _target set_change set_values].
  rewrite Hgv, (setitem_same _ _ _ Hgv), Hgt, (setitem_same _ _ _ Hgt).
  f_equal. apply set_all_same.
Qed.

Lemma get_axis_from_self_witness :
  get_axis_from two_axes 1 None two_axes = Done two_axes.
Proof.
  apply (get_axis_from_self 2 1 two_axes).
  - now repeat split.
  - cbn. lia.
Defined.

(** ** Arrays of finite numbers *)

Lemma all_finite_map (a : list R) : all_finite (map Fin a).
Proof. induction a; constructor; [reflexivity | assumption]. Qed.

Lemma all_finite_inv (a : vec) : all_finite a -> exists rs, a = map Fin rs.
Proof.
  induction 1 as [ | x a Hx _ (rs & ->)]; [now exists [] | ].
  destruct x as [r | | | ]; try discriminate. now exists (r :: rs).
Qed.

Lemma v_sub_fin (a b : list R) :
  v_sub (map Fin a) (map Fin b) = map Fin (r_map2 Rminus a b).
Proof.
  revert b. induction a as [ | x a IH]; intros [ | y b]; try reflexivity.
  unfold v_sub in *. cbn [map v_map2 r_map2]. now rewrite IH.
Qed.

Lemma dot_sum_fin (a b : list R) :
  dot_sum (map Fin a) (map Fin b) = Fin (r_dot a b).
Proof.
  revert b. induction a as [ | x a IH]; intros [ | y b]; try reflexivity.
  cbn [map dot_sum r_dot]. now rewrite IH.
Qed.

Lemma r_map2_length (f : R -> R -> R) (a b : list R) :
  length (r_map2 f a b) = Nat.min (length a) (length b).
Proof.
  revert b. induction a as [ | x a IH]; intros [ | y b]; cbn; try reflexivity.
  now rewrite IH.
Qed.

Lemma r_dot_self_nonneg (a : list R) : 0 <= r_dot a a.
Proof. induction a as [ | x a IH]; cbn; [lra | nra]. Qed.

(** ** [jump] on all axes *)

(** X11: [jump()] on a finite target returns with values equal to
    target, the target as it was and a zero change of the target's length,
    so that the three arrays have one length and [distance_to_target()] is
    0. *)
Theorem jump_all_reaches_target (self : AnimVec) :
  all_finite (_target self) ->
  exists s,
    jump None self = Done s
    /\ _values s = _target self
    /\ _target s = _target self
    /\ _change s = zeros (length (_target self))
    /\ has_len (length (_target self)) s
    /\ nval (distance_to_target s) = Fin 0.
Proof.
  intros Hfin. eexists. split; [reflexivity | ].
  cbn [_values _target _change set_values set_change]. unfold len.
  cbn [_values set_values].
  split; [reflexivity | ]. split; [reflexivity | ]. split; [reflexivity | ].
  split.
  - apply has_len_intro; cbn [_values _target _change set_values set_change];
      rewrite ?zeros_length; reflexivity.
  - unfold distance_to_target, np_sqrt, dot.
    cbn [nval _values _target set_values set_change].
    rewrite (v_sub_self _ Hfin).
    rewrite (dot_sum_zeros_l _ _ (zeros_finite _)).
    cbn [f_sqrt]. rewrite Rltb_false by lra. now rewrite sqrt_0.
Qed.

Lemma jump_all_reaches_target_witness :
  exists s,
    jump None far_example = Done s
    /\ _values s = _target far_example
    /\ _target s = _target far_example
    /\ _change s = zeros (length (_target far_example))
    /\ has_len (length (_target far_example)) s
    /\ nval (distance_to_target s) = Fin 0.
Proof.
  apply (jump_all_reaches_target far_example).
  repeat constructor.
Defined.

(** ** [cap_change] on all axes *)

Lemma mask_assign_spec (k : kind) (limit : R) (a : vec) :
  0 <= limit ->
  Forall (fun c => f_gt (f_abs c) (Fin limit) = false)
    (mask_assign_abs_gt a (mk_num k (Fin limit)))
  /\ Forall2 (fun c c' =>
                (f_gt (f_abs c) (Fin limit) = false -> c' = c)
                /\ (f_gt (f_abs c) (Fin limit) = true -> c' = Fin limit))
       a (mask_assign_abs_gt a (mk_num k (Fin limit)))
  /\ mask_assign_abs_gt (mask_assign_abs_gt a (mk_num k (Fin limit)))
       (mk_num k (Fin limit))
     = mask_assign_abs_gt a (mk_num k (Fin limit)).
Proof.
  intros Hl. unfold mask_assign_abs_gt. cbn [nval].
  assert (Hself : f_gt (f_abs (Fin limit)) (Fin limit) = false).
  { unfold f_gt. cbn [f_abs f_lt]. rewrite Rabs_pos_eq by exact Hl.
    apply Rltb_false. lra. }
  induction a as [ | c cs (IH1 & IH2 & IH3)]; cbn [map].
  - repeat split; constructor.
  - split; [ | split ].
    + constructor; [ | exact IH1 ].
      destruct (f_gt (f_abs c) (Fin limit)) eqn:Hgt; [exact Hself | exact Hgt].
    + constructor; [ | exact IH2 ].
      destruct (f_gt (f_abs c) (Fin limit)); split; congruence.
    + rewrite IH3. f_equal.
      destruct (f_gt (f_abs c) (Fin limit)) eqn:Hgt; [now rewrite Hself | ].
      now rewrite Hgt.
Qed.

(** X12: [cap_change(limit)] without an axis and with [limit >= 0] leaves
    every component with a magnitude of at most [limit]; a component
    within the limit is kept, one beyond it becomes [+limit] whatever its
    sign; values and target are untouched, and capping again changes
    nothing. *)
Theorem cap_change_all (k : kind) (limit : R) (self : AnimVec) :
  0 <= limit ->
  exists s,
    cap_change (mk_num k (Fin limit)) None self = Done s
    /\ Forall (fun c => f_gt (f_abs c) (Fin limit) = false) (_change s)
    /\ Forall2 (fun c c' =>
                  (f_gt (f_abs c) (Fin limit) = false -> c' = c)
                  /\ (f_gt (f_abs c) (Fin limit) = true -> c' = Fin limit))
         (_change self) (_change s)
    /\ _values s = _values self /\ _target s = _target self
    /\ cap_change (mk_num k (Fin limit)) None s = Done s.
Proof.
  intros Hl.
  destruct (mask_assign_spec k limit (_change self) Hl) as (H1 & H2 & H3).
  eexists. split; [reflexivity | ].
  cbn [_change _values _target set_change].
  split; [exact H1 | ]. split; [exact H2 | ].
  split; [reflexivity | ]. split; [reflexivity | ].
  unfold cap_change. cbn [_change set_change]. now rewrite H3.
Qed.

Lemma cap_change_all_witness :
  exists s,
    cap_change (py 1) None (cap_example [Fin (-5); Fin 0; Fin 5]) = Done s
    /\ Forall (fun c => f_gt (f_abs c) (Fin 1) = false) (_change s)
    /\ Forall2 (fun c c' =>
                  (f_gt (f_abs c) (Fin 1) = false -> c' = c)
                  /\ (f_gt (f_abs c) (Fin 1) = true -> c' = Fin 1))
         (_change (cap_example [Fin (-5); Fin 0; Fin 5])) (_change s)
    /\ _values s = _values (cap_example [Fin (-5); Fin 0; Fin 5])
    /\ _target s = _target (cap_example [Fin (-5); Fin 0; Fin 5])
    /\ cap_change (py 1) None s = Done s.
Proof.
  apply (cap_change_all Py 1 (cap_example [Fin (-5); Fin 0; Fin 5])).
  lra.
Defined.

(** ** Instant mode after a freeze *)

Lemma r_map2_minus_self (a : list R) :
  r_map2 Rminus a a = map (fun _ => 0) a.
Proof.
  induction a as [ | x a IH]; [reflexivity | ].
  cbn [r_map2 map]. rewrite IH. f_equal. ring.
Qed.

Lemma zeros_as_map (a : list R) : zeros (length a) = map Fin (map (fun _ => 0) a).
Proof.
  induction a as [ | x a IH]; [reflexivity | ].
  cbn [length zeros repeat map]. fold (zeros (length a)). now rewrite IH.
Qed.

Lemma r_dot_zeros (a : list R) :
  r_dot (map (fun _ => 0) a) (map (fun _ => 0) a) = 0.
Proof. induction a as [ | x a IH]; cbn; [reflexivity | rewrite IH; ring]. Qed.

(** The change recorded on a frozen animator by a tick of length
    [dt <> 0] is zero. *)
Lemma instant_change_frozen (k : kind) (dt : R) (vs : list R) (self : AnimVec) :
  dt <> 0 ->
  _values self = map Fin vs -> _target self = map Fin vs ->
  _change self = zeros (length vs) ->
  instant_change (mk_num k (Fin dt)) self = zeros (length vs).
Proof.
  intros Hdt Hv Ht Hc. unfold instant_change, len.
  rewrite Hv, Ht, Hc, length_map.
  destruct (_record_change self); [ | reflexivity ].
  rewrite v_sub_fin, r_map2_minus_self.
  assert (Hnew : v_div_r (map Fin (map (fun _ => 0) vs)) (mk_num k (Fin dt))
                 = map Fin (map (fun _ => 0) vs)).
  { unfold v_div_r. cbn [nval]. rewrite !map_map. apply map_ext. intros x.
    cbn [f_div]. rewrite (Reqb_false dt 0 Hdt). f_equal. now field. }
  rewrite Hnew, zeros_as_map.
  unfold num_gt, f_gt, dot. cbn [nval]. rewrite dot_sum_fin, r_dot_zeros.
  cbn [f_lt]. rewrite Rltb_false by lra.
  unfold v_add, v_mul_r, py. cbn [nval].
  clear Hv Ht Hc Hnew.
  induction vs as [ | x vs IH]; [reflexivity | ].
  cbn [map v_map2 f_mul f_add]. rewrite IH. do 2 f_equal. ring.
Qed.

(** X13: after [animate = False] on finite values, a tick of any finite
    [delta <> 0] changes nothing, for both settings of [record_change]. *)
Theorem frozen_tick_is_noop
    (cls : AnimVecClass) (k : kind) (dt : R) (self : AnimVec) :
  all_finite (_values self) -> dt <> 0 ->
  tick cls (mk_num k (Fin dt)) (animate_setter false self)
  = Done (animate_setter false self).
Proof.
  intros Hfin Hdt. destruct (all_finite_inv _ Hfin) as (vs & Hvs).
  rewrite tick_instant by reflexivity.
  rewrite (instant_change_frozen k dt vs); try assumption.
  - destruct self as [v t c an lo rc kv ac am dr]. cbn [_values] in Hvs.
    subst v. unfold animate_setter, len. cbn. now rewrite length_map.
  - destruct self as [v t c an lo rc kv ac am dr]. cbn [_values] in Hvs.
    subst v. unfold animate_setter, len. cbn. now rewrite length_map.
Qed.

Lemma frozen_tick_is_noop_witness :
  tick AnimVec_class (py (1 / 60)) (animate_setter false far_example)
  = Done (animate_setter false far_example).
Proof.
  apply (frozen_tick_is_noop AnimVec_class Py (1 / 60) far_example).
  - repeat constructor.
  - lra.
Defined.

Lemma instant_change_frozen_zero (k : kind) (vs : list R) (self : AnimVec) :
  _record_change self = true ->
  _values self = map Fin vs -> _target self = map Fin vs ->
  _change self = zeros (length vs) ->
  instant_change (mk_num k (Fin 0)) self = repeat NaN (length vs).
Proof.
  intros Hrec Hv Ht Hc. unfold instant_change.
  rewrite Hrec, Hv, Ht, Hc, v_sub_fin, r_map2_minus_self.
  assert (Hnew : v_div_r (map Fin (map (fun _ => 0) vs)) (mk_num k (Fin 0))
                 = repeat NaN (length vs)).
  { unfold v_div_r. cbn [nval]. clear.
    induction vs as [ | x vs IH]; [reflexivity | ].
    cbn [map length repeat f_div]. rewrite IH.
    rewrite Reqb_true by reflexivity. unfold sgn. now rdecide. }
  rewrite Hnew.
  assert (Hgt : num_gt (dot (repeat NaN (length vs)) (repeat NaN (length vs)))
                  (dot (zeros (length vs)) (zeros (length vs))) = false).
  { unfold num_gt, f_gt, dot. cbn [nval].
    rewrite (dot_sum_zeros_l _ _ (zeros_finite _)).
    destruct vs; [cbn; now rdecide | reflexivity]. }
  rewrite Hgt. unfold v_add, v_mul_r, py. cbn [nval]. clear.
  induction vs as [ | x vs IH]; [reflexivity | ].
  cbn [length zeros repeat map v_map2]. fold (zeros (length vs)).
  now rewrite IH.
Qed.

(** X14: after [animate = False] on finite values and with
    [record_change] on, [tick(0)] does not raise: it divides the zero
    difference by zero and leaves [nan] in every component of [change],
    with values and target as they were. *)
Theorem frozen_tick_zero_delta_nan
    (cls : AnimVecClass) (k : kind) (self : AnimVec) :
  all_finite (_values self) -> _record_change self = true ->
  exists s,
    tick cls (mk_num k (Fin 0)) (animate_setter false self) = Done s
    /\ _change s = repeat NaN (len self)
    /\ _values s = _values self /\ _target s = _values self.
Proof.
  intros Hfin Hrec. destruct (all_finite_inv _ Hfin) as (vs & Hvs).
  rewrite tick_instant by reflexivity.
  eexists. split; [reflexivity | ].
  cbn [_change _values _target set_values set_change].
  rewrite (instant_change_frozen_zero k vs).
  - unfold len. rewrite Hvs, length_map. now repeat split.
  - exact Hrec.
  - exact Hvs.
  - exact Hvs.
  - unfold animate_setter, len. cbn. now rewrite Hvs, length_map.
Qed.

Lemma frozen_tick_zero_delta_nan_witness :
  exists s,
    tick AnimVec_class (py 0) (animate_setter false far_example) = Done s
    /\ _change s = repeat NaN (len far_example)
    /\ _values s = _values far_example /\ _target s = _values far_example.
Proof.
  apply (frozen_tick_zero_delta_nan AnimVec_class Py far_example).
  - repeat constructor.
  - reflexivity.
Defined.

(** ** Loose mode *)

Lemma v_mul_r_fin (a : list R) (k : kind) (p : R) :
  v_mul_r (map Fin a) (mk_num k (Fin p)) = map Fin (map (fun c => c * p) a).
Proof.
  unfold v_mul_r. cbn [nval]. rewrite !map_map. now apply map_ext.
Qed.

Lemma v_div_r_fin (a : list R) (k : kind) (q : R) :
  q <> 0 ->
  v_div_r (map Fin a) (mk_num k (Fin q)) = map Fin (map (fun c => c / q) a).
Proof.
  intros Hq. unfold v_div_r. cbn [nval]. rewrite !map_map. apply map_ext.
  intros c. cbn [f_div]. now rewrite (Reqb_false q 0 Hq).
Qed.

Lemma v_add_fin (a b : list R) :
  v_add (map Fin a) (map Fin b) = map Fin (r_map2 Rplus a b).
Proof.
  revert b. induction a as [ | x a IH]; intros [ | y b]; try reflexivity.
  unfold v_add in *. cbn [map v_map2 r_map2]. now rewrite IH.
Qed.

Lemma r_map2_map_r (f : R -> R -> R) (g : R -> R) (a b : list R) :
  r_map2 f a (map g b) = r_map2 (fun x y => f x (g y)) a b.
Proof.
  revert b. induction a as [ | x a IH]; intros [ | y b]; try reflexivity.
  cbn [map r_map2]. now rewrite IH.
Qed.


(** One loose tick at a drag in (0,1), on finite arrays. *)
Lemma tick_loose_step
    (cls : AnimVecClass) (kd kdt : kind) (d dt : R) (vs cs : list R)
    (self : AnimVec) :
  _animate self = true -> _loose self = true ->
  stored_drag cls self = mk_num kd (Fin d) -> 0 < d < 1 -> 0 <= dt ->
  _values self = map Fin vs -> _change self = map Fin cs ->
  tick cls (mk_num kdt (Fin dt)) self
  = Done (set_values
            (set_target
               (set_change self (map Fin (map (fun c => c * Rpower d dt) cs)))
               (map Fin (r_map2 (fun v c => v - c * Rpower d dt / ln d) vs cs)))
            (map Fin (r_map2 (fun v c => v + c * Rpower d dt * dt) vs cs))).
Proof.
  intros Hanim Hloose Hdrag Hd Hdt Hv Hc.
  pose proof (ln_neg d Hd) as HL.
  unfold tick, attempt. rewrite Hanim, Hloose.
  fold (stored_drag cls self). rewrite Hdrag.
  rewrite num_pow_le_1, math_log_fin by lra.
  cbn [_change _values _target set_values set_target set_change].
  rewrite Hc, Hv, v_mul_r_fin. unfold py.
  rewrite v_mul_r_fin, v_div_r_fin by lra.
  now rewrite v_add_fin, v_sub_fin, !r_map2_map_r, !map_map.
Qed.




(** X16: in loose mode, with a stored drag in (0,1) and a [delta] that is
    not negative, an animator with finite values and zero change does not
    drift: a tick returns with values and change as they were and the
    target set to the values. *)
Theorem tick_loose_at_rest
    (cls : AnimVecClass) (kd kdt : kind) (d dt : R) (self : AnimVec) :
  _animate self = true -> _loose self = true ->
  stored_drag cls self = mk_num kd (Fin d) -> 0 < d < 1 -> 0 <= dt ->
  all_finite (_values self) -> _change self = zeros (len self) ->
  tick cls (mk_num kdt (Fin dt)) self
  = Done (set_target self (_values self)).
Proof.
  intros Hanim Hloose Hdrag Hd Hdt Hfin Hzero.
  destruct (all_finite_inv _ Hfin) as (vs & Hv).
  assert (Hc : _change self = map Fin (map (fun _ => 0) vs)).
  { rewrite Hzero. unfold len. rewrite Hv, length_map. apply zeros_as_map. }
  rewrite (tick_loose_step cls kd kdt d dt vs (map (fun _ => 0) vs) self)
    by assumption.
  assert (Hunch : map (fun c => c * Rpower d dt) (map (fun _ => 0) vs)
                  = map (fun _ => 0) vs).
  { rewrite map_map. apply map_ext. intros; ring. }
  assert (Hkeep : forall f : R -> R -> R,
             (forall v, f v 0 = v) -> r_map2 f vs (map (fun _ => 0) vs) = vs).
  { intros f Hf. clear - Hf. induction vs as [ | x l IH]; [reflexivity | ].
    cbn [map r_map2]. now rewrite IH, Hf. }
  rewrite Hunch, !Hkeep by (intros; unfold Rdiv; ring).
  rewrite <- Hc, <- Hv. now destruct self.
Qed.

Lemma tick_loose_at_rest_witness :
  tick AnimVec_class (py (1 / 60)) loose_rest_example
  = Done (set_target loose_rest_example (_values loose_rest_example)).
Proof.
  apply (tick_loose_at_rest AnimVec_class Py Py (/ 10 ^ 7) (1 / 60)
           loose_rest_example).
  - reflexivity.
  - reflexivity.
  - reflexivity.
  - exact default_drag_range.
  - lra.
  - repeat constructor.
  - reflexivity.
Defined.

(** ** The tethered tick from rest *)

Lemma r_dot_zeros_l (a b : list R) : r_dot (map (fun _ => 0) a) b = 0.
Proof.
  revert b. induction a as [ | x a IH]; intros [ | y b]; cbn; try reflexivity.
  rewrite IH. ring.
Qed.

(** At rest the projected rate is the Python 0 and the solver is called
    on it. *)
Lemma tick_tethered_from_rest
    (cls : AnimVecClass) (delta : num) (vs ts : list R) (self : AnimVec) :
  _animate self = true -> _loose self = false ->
  _values self = map Fin vs -> _target self = map Fin ts ->
  _change self = zeros (length vs) ->
  tick cls delta self
  = (rate <-[self]
       _animate_value (py 0) (py 0) (solver_distance vs ts)
         (stored_acceleration cls self) (stored_acceleration_modifier cls self)
         (stored_drag cls self) delta ;;
     let change :=
       v_div_r (v_mul_l rate (map Fin (r_map2 Rminus ts vs)))
               (solver_distance vs ts) in
     Done (set_values (set_change self change)
             (v_add (_values self) (v_mul_r change delta)))).
Proof.
  intros Hanim Hloose Hv Ht Hc.
  unfold tick. rewrite Hanim, Hloose.
  fold (stored_drag cls self) (stored_acceleration cls self)
    (stored_acceleration_modifier cls self).
  cbn [_values _change set_change].
  rewrite Hv, Ht, Hc, v_sub_fin, zeros_as_map.
  unfold dot, np_sqrt, num_mul, num_abs, num_ne, num_eq, lift2, f_ne.
  cbn [nval nkind]. rewrite !dot_sum_fin, !r_dot_zeros_l.
  set (dd := r_dot _ _).
  assert (Hdd : 0 <= dd) by apply r_dot_self_nonneg.
  cbn [f_sqrt f_abs f_mul f_eq]. rewrite !Rltb_false by lra. rewrite sqrt_0.
  unfold py at 1 2. cbn [nval f_mul f_eq]. rewrite Rmult_0_r.
  rewrite (Reqb_true _ 0 eq_refl). cbn [negb].
  unfold attempt at 1. unfold solver_distance. fold dd.
  change (nval (py 0)) with (Fin 0). cbv beta iota.
  cbn [_values _change set_change].
  destruct (Reqb (sqrt dd) 0); reflexivity.
Qed.

Lemma solver_distance_cases (vs ts : list R) :
  exists k e,
    solver_distance vs ts = mk_num k (Fin e) /\ 0 < e
    /\ (num_gt (mk_num Np (Fin (sqrt (r_dot (r_map2 Rminus ts vs)
                                         (r_map2 Rminus ts vs)))))
          (py (1 / 100)) = false -> e <= 1 / 100)
    /\ (num_gt (mk_num Np (Fin (sqrt (r_dot (r_map2 Rminus ts vs)
                                         (r_map2 Rminus ts vs)))))
          (py (1 / 100)) = true ->
        e = sqrt (r_dot (r_map2 Rminus ts vs) (r_map2 Rminus ts vs))
        /\ 1 / 100 < e).
Proof.
  unfold solver_distance, num_gt, f_gt, py. cbn [nval f_lt].
  set (dd := r_dot _ _).
  pose proof (sqrt_pos dd) as Hs. pose proof epsilon_range as He.
  destruct (Req_dec_T (sqrt dd) 0) as [H0 | H0].
  - rewrite (Reqb_true _ _ H0). eexists _, _. split; [reflexivity | ].
    split; [lra | ]. split; [intros _; lra | ].
    rewrite H0. intros H. apply Rltb_lt in H. lra.
  - rewrite (Reqb_false _ _ H0). eexists _, _. split; [reflexivity | ].
    split; [lra | ]. split.
    + intros H. destruct (Rlt_dec (1 / 100) (sqrt dd)) as [Hlt | Hlt];
        [ | lra ].
      rewrite (Rltb_true _ _ Hlt) in H. discriminate.
    + intros H. apply Rltb_lt in H. now split.
Qed.

Lemma distance_to_target_fin (vs ts : list R) (self : AnimVec) :
  _values self = map Fin vs -> _target self = map Fin ts ->
  distance_to_target self
  = mk_num Np (Fin (sqrt (r_dot (r_map2 Rminus ts vs)
                            (r_map2 Rminus ts vs)))).
Proof.
  intros Hv Ht. unfold distance_to_target, np_sqrt, dot. cbn [nval].
  rewrite Hv, Ht, v_sub_fin, dot_sum_fin. cbn [f_sqrt].
  rewrite Rltb_false; [reflexivity | ].
  pose proof (r_dot_self_nonneg (r_map2 Rminus ts vs)). lra.
Qed.

(** At rest with a stored drag of 1 the solver divides the Python 0 by
    [math.log(1)]. *)
Lemma tick_tethered_rest_drag_one
    (cls : AnimVecClass) (delta d : num) (vs ts : list R) (self : AnimVec) :
  _animate self = true -> _loose self = false ->
  _values self = map Fin vs -> _target self = map Fin ts ->
  length vs = length ts ->
  _change self = zeros (length vs) ->
  stored_drag cls self = d -> nval d = Fin 1 ->
  tick cls delta self = Raised ZeroDivisionError self.
Proof.
  intros Hanim Hloose Hv Ht _ Hc Hdrag Hone.
  rewrite (tick_tethered_from_rest cls delta vs ts self) by assumption.
  rewrite Hdrag. destruct d as [kd vd]. cbn [nval] in Hone. subst vd.
  unfold _animate_value, moving_toward.
  rewrite math_log_fin by lra. cbn [bind].
  unfold num_div, py. cbn [nkind nval f_eq].
  rewrite Reqb_true by apply ln_1. reflexivity.
Qed.

(** The solver at rest within 0.01 of the target keeps the rate at zero. *)
Lemma animate_value_rest_near (kt kd kdt : kind) (d dt e : R)
    (acceleration acceleration_modifier : num) :
  0 < d < 1 -> 0 <= dt -> 0 < e <= 1 / 100 ->
  exists r,
    _animate_value (py 0) (py 0) (mk_num kt (Fin e)) acceleration
      acceleration_modifier (mk_num kd (Fin d)) (mk_num kdt (Fin dt)) = Ok r
    /\ nval r = Fin 0.
Proof.
  intros Hd Hdt He.
  assert (Hmt : moving_toward (py 0) (py 0) (mk_num kd (Fin d))
                = Ok (py (0 - 0 / ln d))) by (apply moving_toward_fin, Hd).
  assert (H0 : 0 - 0 / ln d = 0) by (unfold Rdiv; ring).
  destruct (animate_value_coast_rate Py Py kt kd kdt 0 0 e d dt acceleration
              acceleration_modifier Hd Hdt) as (r & Hr & Hval).
  - eexists. split; [exact Hmt | ].
    unfold num_lt, num_sub, lift2, py. cbn [nval f_sub f_neg f_add f_lt].
    apply Rltb_false. lra.
  - exists r. split; [exact Hr | ]. rewrite Hval.
    unfold in_overshoot_band. fold (py 0). rewrite Hmt.
    unfold num_gt, f_gt, num_add, lift2, py. cbn [nval f_add f_lt].
    rewrite (Rltb_false e) by lra. rewrite andb_false_r. f_equal. ring.
Qed.

Lemma rescale_zero_rate (es : list R) (rate distance : num) (q : R) :
  nval rate = Fin 0 -> nval distance = Fin q -> q <> 0 ->
  v_div_r (v_mul_l rate (map Fin es)) distance = zeros (length es).
Proof.
  intros Hr Hd Hq. unfold v_div_r, v_mul_l. rewrite Hr, Hd.
  induction es as [ | x es IH]; [reflexivity | ].
  cbn [map length zeros repeat]. fold (zeros (length es)). rewrite IH.
  cbn [f_mul f_div]. rewrite (Reqb_false q 0 Hq). do 2 f_equal. now field.
Qed.

Lemma tick_rest_near_target
    (cls : AnimVecClass) (kdt kd : kind) (dt d : R) (vs ts : list R)
    (self : AnimVec) :
  _animate self = true -> _loose self = false ->
  _values self = map Fin vs -> _target self = map Fin ts ->
  length vs = length ts ->
  _change self = zeros (length vs) ->
  stored_drag cls self = mk_num kd (Fin d) -> 0 < d < 1 -> 0 <= dt ->
  num_gt (distance_to_target self) (py (1 / 100)) = false ->
  tick cls (mk_num kdt (Fin dt)) self = Done self.
Proof.
  intros Hanim Hloose Hv Ht Hlen Hc Hdrag Hd Hdt Hnear.
  rewrite (tick_tethered_from_rest cls _ vs ts self) by assumption.
  rewrite Hdrag.
  rewrite (distance_to_target_fin vs ts self Hv Ht) in Hnear.
  destruct (solver_distance_cases vs ts) as (k & e & -> & He & Hle & _).
  specialize (Hle Hnear).
  destruct (animate_value_rest_near k kd kdt d dt e
              (stored_acceleration cls self)
              (stored_acceleration_modifier cls self) Hd Hdt (conj He Hle))
    as (r & -> & Hr).
  unfold attempt. cbv zeta.
  rewrite (rescale_zero_rate _ r (mk_num k (Fin e)) e Hr eq_refl) by lra.
  rewrite r_map2_length, <- Hlen, Nat.min_id.
  assert (Hstep : v_add (_values self)
                    (v_mul_r (zeros (length vs)) (mk_num kdt (Fin dt)))
                  = _values self).
  { rewrite <- (length_map Fin vs), <- Hv.
    apply (v_add_zero_step _ _ dt); [ | reflexivity ].
    rewrite Hv. apply all_finite_map. }
  rewrite Hstep, <- Hc. f_equal. apply set_same.
Qed.

(** X17: in tethered mode an animator at rest (zero change, finite
    arrays) whose stored drag is 1 cannot tick: the projected rate is the
    Python 0, [moving_toward] divides it by [math.log(1)], and [tick]
    raises [ZeroDivisionError], leaving the animator unchanged.  The
    squared distance to the target is taken within float64, with room to
    spare: past that the code computes [inf * 0], the guard [den != 0]
    lets the [nan] through and nothing is raised. *)
Theorem tick_tethered_drag_one_raises
    (cls : AnimVecClass) (delta d : num) (vs ts : list R) (self : AnimVec) :
  _animate self = true -> _loose self = false ->
  _values self = map Fin vs -> _target self = map Fin ts ->
  length vs = length ts ->
  r_dot (r_map2 Rminus ts vs) (r_map2 Rminus ts vs) <= 2 ^ 1000 ->
  _change self = zeros (length vs) ->
  stored_drag cls self = d -> nval d = Fin 1 ->
  tick cls delta self = Raised ZeroDivisionError self.
Proof.
  intros Hanim Hloose Hv Ht Hlen _.
  now apply (tick_tethered_rest_drag_one cls delta d vs ts).
Qed.

Lemma far_example_in_range :
  r_dot (r_map2 Rminus [3; 4] [0; 0]) (r_map2 Rminus [3; 4] [0; 0])
  <= 2 ^ 1000.
Proof.
  cbn [r_map2 r_dot].
  assert (H : 2 ^ 5 <= 2 ^ 1000) by (apply Rle_pow; [lra | lia]).
  assert (H5 : 2 ^ 5 = 32) by (simpl; ring).
  lra.
Qed.

(** [set_default_drag(0)] stores the default drag 1. *)
Lemma set_default_drag_zero :
  set_default_drag (py 0) AnimVec_class = Ok drag_one_class.
Proof.
  unfold set_default_drag, py. cbn [nkind nval f_neg].
  rewrite num_pow_le_1 by lra. cbn [bind join].
  now rewrite Ropp_0, Rpower_O by lra.
Qed.

Lemma tick_tethered_drag_one_raises_witness :
  tick drag_one_class (py (1 / 60)) far_example
  = Raised ZeroDivisionError far_example.
Proof.
  apply (tick_tethered_drag_one_raises drag_one_class (py (1 / 60)) (py 1)
           [0; 0] [3; 4] far_example).
  - reflexivity.
  - reflexivity.
  - reflexivity.
  - reflexivity.
  - reflexivity.
  - exact far_example_in_range.
  - reflexivity.
  - reflexivity.
  - reflexivity.
Defined.

(** X18: in tethered mode, with a stored drag in (0,1) and a [delta] that
    is not negative, an animator at rest whose [distance_to_target()] is
    not above 0.01 is a fixed point of [tick]: it stays where it is, short
    of the target, whatever acceleration and modifier are. *)
Theorem tick_rest_dead_zone
    (cls : AnimVecClass) (kdt kd : kind) (dt d : R) (vs ts : list R)
    (self : AnimVec) :
  _animate self = true -> _loose self = false ->
  _values self = map Fin vs -> _target self = map Fin ts ->
  length vs = length ts ->
  _change self = zeros (length vs) ->
  stored_drag cls self = mk_num kd (Fin d) -> 0 < d < 1 -> 0 <= dt ->
  num_gt (distance_to_target self) (py (1 / 100)) = false ->
  tick cls (mk_num kdt (Fin dt)) self = Done self.
Proof. apply tick_rest_near_target. Qed.

Lemma near_example_is_near :
  num_gt (distance_to_target near_example) (py (1 / 100)) = false.
Proof.
  rewrite (distance_to_target_fin [0] [1 / 200] near_example) by reflexivity.
  unfold num_gt, f_gt, py. cbn [nval f_lt r_map2 r_dot].
  replace ((1 / 200 - 0) * (1 / 200 - 0) + 0) with (1 / 200 * (1 / 200))
    by ring.
  rewrite sqrt_square by lra. apply Rltb_false. lra.
Qed.

Lemma tick_rest_dead_zone_witness :
  tick AnimVec_class (py (1 / 60)) near_example = Done near_example.
Proof.
  apply (tick_rest_dead_zone AnimVec_class Py Py (1 / 60) (/ 10 ^ 7)
           [0] [1 / 200] near_example).
  - reflexivity.
  - reflexivity.
  - reflexivity.
  - reflexivity.
  - reflexivity.
  - reflexivity.
  - reflexivity.
  - exact default_drag_range.
  - lra.
  - exact near_example_is_near.
Defined.

(** ** A fresh animator *)

Lemma zeros_repeat (n : nat) : zeros n = map Fin (repeat 0 n).
Proof.
  induction n as [ | n IH]; [reflexivity | ].
  cbn [zeros repeat map]. fold (zeros n). now rewrite IH.
Qed.

Lemma __init___fields (vector : option (list R)) (n : nat)
    (a m drag : option num) :
  exists s,
    __init__ (option_map (map Fin) vector) n a m drag = Done s
    /\ _values s = map Fin (initial_values vector n)
    /\ _target s = map Fin (initial_values vector n)
    /\ _change s = zeros (length (initial_values vector n))
    /\ _animate s = true /\ _loose s = false
    /\ match drag with
       | Some v => exists d, drag_of v = Ok d /\ _drag s = Some d
       | None => _drag s = None
       end.
Proof.
  unfold __init__, drag_setter, attempt. cbv zeta.
  assert (Hz : zeros (length (zeros n)) = zeros (length (repeat 0 n)))
    by now rewrite zeros_length, repeat_length.
  destruct drag as [v | ]; [ destruct (drag_of_returns v) as (d & Hd) | ].
  - rewrite Hd.
    destruct vector as [vs | ], a, m; eexists; (split; [reflexivity | ]);
      cbn [option_map initial_values _values _target _change _animate _loose
           _drag acceleration_setter acceleration_modifier_setter];
      rewrite ?length_map, <- ?zeros_repeat, ?Hz; repeat split; now exists d.
  - destruct vector as [vs | ], a, m; eexists; (split; [reflexivity | ]);
      cbn [option_map initial_values _values _target _change _animate _loose
           _drag acceleration_setter acceleration_modifier_setter];
      rewrite ?length_map, <- ?zeros_repeat, ?Hz; now repeat split.
Qed.

Lemma fresh_distance (vs : list R) (self : AnimVec) :
  _values self = map Fin vs -> _target self = map Fin vs ->
  num_gt (distance_to_target self) (py (1 / 100)) = false.
Proof.
  intros Hv Ht. rewrite (distance_to_target_fin vs vs self Hv Ht).
  rewrite r_map2_minus_self, r_dot_zeros, sqrt_0.
  unfold num_gt, f_gt, py. cbn [nval f_lt]. apply Rltb_false. lra.
Qed.

(** X19: an animator as the constructor returns it is settled.
    Whatever vector, length, acceleration, acceleration modifier and drag
    it is built from, when the drag that [tick] reads (its own, or the
    default of the class) lies strictly between 0 and 1, a first tick of a
    finite [delta >= 0] changes nothing. *)
Theorem fresh_animator_is_settled
    (cls : AnimVecClass) (kdt kd : kind) (dt d : R)
    (vector : option (list R)) (n : nat) (a m drag : option num)
    (s : AnimVec) :
  __init__ (option_map (map Fin) vector) n a m drag = Done s ->
  stored_drag cls s = mk_num kd (Fin d) -> 0 < d < 1 ->
  0 <= dt ->
  tick cls (mk_num kdt (Fin dt)) s = Done s.
Proof.
  intros Hinit Hdrag Hd Hdt.
  destruct (__init___fields vector n a m drag)
    as (s' & Hs & Hvals & Htar & Hch & Hanim & Hloose & _).
  rewrite Hinit in Hs. injection Hs as <-.
  apply (tick_rest_near_target cls kdt kd dt d (initial_values vector n)
           (initial_values vector n)); try assumption; try reflexivity.
  now apply (fresh_distance (initial_values vector n)).
Qed.

Lemma fresh_animator_is_settled_witness :
  tick AnimVec_class (py (1 / 60)) (animator [Fin 0; Fin 0] [Fin 0; Fin 0]
                                      [Fin 0; Fin 0])
  = Done (animator [Fin 0; Fin 0] [Fin 0; Fin 0] [Fin 0; Fin 0]).
Proof.
  apply (fresh_animator_is_settled AnimVec_class Py Py (1 / 60) (/ 10 ^ 7)
           None 2 None None None).
  - reflexivity.
  - reflexivity.
  - exact default_drag_range.
  - lra.
Defined.

(** X20: an animator constructed with a finite [drag <= 0] stores the
    drag 1, and its first tick, of any delta, raises
    [ZeroDivisionError]. *)
Theorem fresh_animator_zero_drag_raises
    (cls : AnimVecClass) (delta : num) (k : kind) (v : R)
    (vector : option (list R)) (n : nat) (a m : option num) :
  v <= 0 ->
  exists s,
    __init__ (option_map (map Fin) vector) n a m (Some (mk_num k (Fin v)))
    = Done s
    /\ tick cls delta s = Raised ZeroDivisionError s.
Proof.
  intros Hv.
  destruct (__init___fields vector n a m (Some (mk_num k (Fin v))))
    as (s & Hs & Hvals & Htar & Hch & Hanim & Hloose & d & Hd & Hdrag).
  exists s. split; [exact Hs | ].
  assert (Hone : d = py 1).
  { unfold drag_of, num_gt, f_gt, py in Hd. cbn [nval f_lt] in Hd.
    rewrite Rltb_false in Hd by lra. now injection Hd as <-. }
  apply (tick_tethered_rest_drag_one cls delta d (initial_values vector n)
           (initial_values vector n)); try assumption; try reflexivity.
  - unfold stored_drag. now rewrite Hdrag.
  - now rewrite Hone.
Qed.

Lemma fresh_animator_zero_drag_raises_witness :
  exists s,
    __init__ (option_map (map Fin) None) 2 None None (Some (py 0)) = Done s
    /\ tick AnimVec_class (py (1 / 60)) s = Raised ZeroDivisionError s.
Proof.
  apply (fresh_animator_zero_drag_raises AnimVec_class (py (1 / 60)) Py 0 None
           2 None None).
  lra.
Defined.

(** ** The tethered tick from rest, outside the dead zone *)

Lemma f_pow_pos (a b : R) :
  0 < a -> exists r, f_pow (Fin a) (Fin b) = Fin r /\ 0 < r.
Proof.
  intros Ha. unfold f_pow. cbn [f_eq].
  destruct (Reqb b 0); [exists 1; split; [reflexivity | lra] | ].
  destruct (Reqb a 1); [exists 1; split; [reflexivity | lra] | ].
  rewrite (Rltb_true 0 a Ha). eexists. split; [reflexivity | ].
  unfold Rpower. apply exp_pos.
Qed.

(** From rest the curve yields a positive rate. *)
Lemma accelerated_from_rest (ka km kdt : kind) (a m dt : R) :
  0 < a -> 0 < m -> 0 < dt ->
  exists rate c,
    accelerated (py 0) (mk_num ka (Fin a)) (mk_num km (Fin m))
      (mk_num kdt (Fin dt)) = Ok rate
    /\ nval rate = Fin c /\ 0 < c.
Proof.
  intros Ha Hm Hdt.
  unfold accelerated, num_abs, num_add, lift2, py.
  cbn [nval nkind f_abs f_add].
  rewrite !num_div_fin by lra. cbn [bind].
  unfold np_power, np_sign, num_mul, num_add, num_abs, lift2.
  cbn [nval nkind].
  assert (Hb : Rabs 0 / (m + 1) = 0) by (rewrite Rabs_R0; unfold Rdiv; ring).
  assert (He : 0 < 1 / m) by (apply Rdiv_lt_0_compat; lra).
  rewrite Hb.
  assert (Hp0 : f_pow (Fin 0) (Fin (1 / m)) = Fin 0).
  { unfold f_pow. cbn [f_eq]. now rdecide. }
  assert (Hs0 : f_sign (Fin 0) = Fin 0) by (unfold f_sign; now rdecide).
  rewrite Hp0, Hs0. cbn [f_mul f_add].
  set (p := 0 * 0 + dt * a).
  assert (Hp : 0 < p) by (unfold p; nra).
  assert (Hs : f_sign (Fin p) = Fin 1) by (unfold f_sign; now rdecide).
  rewrite Hs. cbn [f_abs f_mul].
  destruct (f_pow_pos (Rabs p) m) as (r & -> & Hr).
  { rewrite Rabs_pos_eq; lra. }
  cbn [f_mul]. eexists _, _. split; [reflexivity | ].
  split; [reflexivity | ]. nra.
Qed.

(** From value 0 the clamps turn a positive rate into a positive rate that
    lands on or before a target ahead. *)
Lemma clamped_from_zero (kt kd kdt : kind) (t d dt : R) (rate : num) (c : R) :
  0 < d < 1 -> 0 < dt -> 0 < t -> nval rate = Fin c -> 0 < c ->
  exists r x,
    clamped (py 0) (mk_num kt (Fin t)) (mk_num kd (Fin d))
      (mk_num kdt (Fin dt)) rate = Ok r
    /\ nval r = Fin x /\ 0 < x /\ x * dt <= t.
Proof.
  intros Hd Hdt Ht Hc Hpos. destruct rate as [kc f]. cbn [nval] in Hc.
  subst f. pose proof (ln_neg d Hd) as HL.
  unfold clamped, py. rewrite moving_toward_fin by assumption. cbn [bind].
  unfold num_add, num_sub, num_mul, lift2.
  rewrite math_log_fin by lra.
  unfold num_gt, f_gt, py. cbn [nval f_lt bind].
  assert (Hland : 0 < (t + - 0) / dt /\ (t + - 0) / dt * dt <= t).
  { split; [apply Rdiv_lt_0_compat; lra | right; field; lra]. }
  destruct (Rlt_dec t (0 - c / ln d)) as [Hover | Hover];
    [ rewrite (Rltb_true _ _ Hover) | rewrite (Rltb_false _ _ Hover) ];
    cbn [bind nval nkind f_add f_mul f_sub f_neg f_lt].
  all: rcases.
  all: try (rewrite num_div_fin by lra; eexists _, _;
            split; [reflexivity | split; [reflexivity | exact Hland] ]).
  all: eexists _, _; split; [reflexivity | split; [reflexivity | ] ].
  - split; nra.
  - split; lra.
Qed.

Lemma approach_from_rest_far (k kd : kind) (e d : R) :
  0 < d < 1 -> 1 / 100 < e ->
  approach_phase (py 0) (py 0) (mk_num k (Fin e)) (mk_num kd (Fin d)).
Proof.
  intros Hd He. eexists. split; [ apply moving_toward_fin; exact Hd | ].
  unfold num_lt, num_sub, lift2, py. cbn [nval f_sub f_neg f_add f_lt].
  apply Rltb_true. unfold Rdiv. rewrite Rmult_0_l. lra.
Qed.

Lemma r_map2_scaled_diff (f : R -> R -> R) (g : R -> R) (vs ts : list R) :
  r_map2 f vs (map g (r_map2 Rminus ts vs))
  = r_map2 (fun v t => f v (g (t - v))) vs ts.
Proof.
  revert ts. induction vs as [ | v vs IH]; intros [ | t ts]; try reflexivity.
  cbn [r_map2 map]. now rewrite IH.
Qed.

Lemma map_scaled_diff (g : R -> R) (vs ts : list R) :
  map g (r_map2 Rminus ts vs) = r_map2 (fun v t => g (t - v)) vs ts.
Proof.
  revert ts. induction vs as [ | v vs IH]; intros [ | t ts]; try reflexivity.
  cbn [r_map2 map]. now rewrite IH.
Qed.

Lemma v_mul_l_fin (k : kind) (x : R) (a : list R) :
  v_mul_l (mk_num k (Fin x)) (map Fin a) = map Fin (map (fun e => x * e) a).
Proof.
  unfold v_mul_l. cbn [nval]. rewrite !map_map. now apply map_ext.
Qed.

Lemma r_map2_ext (f g : R -> R -> R) (a b : list R) :
  (forall x y, f x y = g x y) -> r_map2 f a b = r_map2 g a b.
Proof.
  intros H. revert b. induction a as [ | x a IH]; intros [ | y b];
    try reflexivity.
  cbn [r_map2]. now rewrite IH, H.
Qed.

(** One tethered tick from rest, further than 0.01 from the target. *)
Lemma tick_from_rest_step
    (cls : AnimVecClass) (ka km kd kdt : kind) (a m d dt : R)
    (vs ts : list R) (self : AnimVec) :
  _animate self = true -> _loose self = false ->
  _values self = map Fin vs -> _target self = map Fin ts ->
  length vs = length ts ->
  _change self = zeros (length vs) ->
  stored_acceleration cls self = mk_num ka (Fin a) -> 0 < a ->
  stored_acceleration_modifier cls self = mk_num km (Fin m) -> 0 < m ->
  stored_drag cls self = mk_num kd (Fin d) -> 0 < d < 1 ->
  0 < dt ->
  num_gt (distance_to_target self) (py (1 / 100)) = true ->
  exists s lam,
    tick cls (mk_num kdt (Fin dt)) self = Done s
    /\ 0 < lam <= 1
    /\ _values s = map Fin (r_map2 (fun v t => v + lam * (t - v)) vs ts)
    /\ _change s = map Fin (r_map2 (fun v t => lam / dt * (t - v)) vs ts)
    /\ _target s = _target self.
Proof.
  intros Hanim Hloose Hv Ht Hlen Hc Hacc Ha Hmod Hm Hdrag Hd Hdt Hfar.
  rewrite (tick_tethered_from_rest cls _ vs ts self) by assumption.
  rewrite Hacc, Hmod, Hdrag.
  rewrite (distance_to_target_fin vs ts self Hv Ht) in Hfar.
  destruct (solver_distance_cases vs ts) as (k & e & -> & He & _ & Hgt).
  destruct (Hgt Hfar) as (_ & Hefar).
  rewrite _animate_value_approach by now apply approach_from_rest_far.
  destruct (accelerated_from_rest ka km kdt a m dt Ha Hm Hdt)
    as (rate & c & -> & Hrate & Hcpos).
  cbn [bind].
  destruct (clamped_from_zero k kd kdt e d dt rate c Hd Hdt He Hrate Hcpos)
    as (r & x & -> & Hx & Hxpos & Hxle).
  unfold attempt. cbv zeta. destruct r as [kr vr]. cbn [nval] in Hx. subst vr.
  rewrite v_mul_l_fin, v_div_r_fin by lra.
  rewrite Hv, v_mul_r_fin, v_add_fin.
  eexists _, (x * dt / e).
  split; [reflexivity | ].
  cbn [_values _target _change set_values set_change].
  split; [ | split; [ | split; [ | reflexivity] ] ].
  - split.
    + apply Rdiv_lt_0_compat; nra.
    + apply Rmult_le_reg_r with e; [lra | ].
      unfold Rdiv. rewrite Rmult_assoc, Rinv_l by lra. lra.
  - f_equal. rewrite !map_map, r_map2_scaled_diff. apply r_map2_ext.
    intros v t. field. lra.
  - f_equal. rewrite !map_map, map_scaled_diff. apply r_map2_ext.
    intros v t. field. lra.
Qed.

Lemma heads_toward_scaled (k : R) (vs ts : list R) :
  0 <= k ->
  heads_toward vs ts (r_map2 (fun v t => k * (t - v)) vs ts).
Proof.
  intros Hk. unfold heads_toward. revert ts.
  induction vs as [ | v vs IH]; intros [ | t ts]; cbn [r_map2];
    try constructor; [ | apply IH ].
  replace (k * (t - v) * (t - v)) with (k * ((t - v) * (t - v))) by ring.
  apply Rmult_le_pos; [exact Hk | apply Rle_0_sqr].
Qed.

Lemma displacement_scaled (lam : R) (vs ts : list R) :
  r_map2 Rminus (r_map2 (fun v t => v + lam * (t - v)) vs ts) vs
  = r_map2 (fun v t => lam * (t - v)) vs ts.
Proof.
  revert ts. induction vs as [ | v vs IH]; intros [ | t ts]; try reflexivity.
  cbn [r_map2]. rewrite IH. f_equal. ring.
Qed.

(** X21: in tethered mode an animator at rest heads for its target.  From
    rest and further than 0.01 from a target whose squared distance is
    within float64 with room to spare, with positive acceleration, positive
    modifier, a stored drag in (0,1) and [delta > 0], a tick returns and
    leaves the target untouched; the new change and the displacement of the
    values are finite, and on every axis they have the sign of the way to
    the target or are zero: no axis moves away from its target. *)
Theorem tick_from_rest_heads_toward
    (cls : AnimVecClass) (ka km kd kdt : kind) (a m d dt : R)
    (vs ts : list R) (self : AnimVec) :
  _animate self = true -> _loose self = false ->
  _values self = map Fin vs -> _target self = map Fin ts ->
  length vs = length ts ->
  r_dot (r_map2 Rminus ts vs) (r_map2 Rminus ts vs) <= 2 ^ 1000 ->
  _change self = zeros (length vs) ->
  stored_acceleration cls self = mk_num ka (Fin a) -> 0 < a ->
  stored_acceleration_modifier cls self = mk_num km (Fin m) -> 0 < m ->
  stored_drag cls self = mk_num kd (Fin d) -> 0 < d < 1 ->
  0 < dt ->
  num_gt (distance_to_target self) (py (1 / 100)) = true ->
  exists s cs ws,
    tick cls (mk_num kdt (Fin dt)) self = Done s
    /\ _target s = _target self
    /\ _change s = map Fin cs
    /\ _values s = map Fin ws
    /\ heads_toward vs ts cs
    /\ heads_toward vs ts (r_map2 Rminus ws vs).
Proof.
  intros Hanim Hloose Hv Ht Hlen _ Hc Hacc Ha Hmod Hm Hdrag Hd Hdt Hfar.
  destruct (tick_from_rest_step cls ka km kd kdt a m d dt vs ts self)
    as (s & lam & Hs & Hlam & Hsv & Hsc & Hst); try assumption.
  eexists s, _, _.
  split; [exact Hs | ]. split; [exact Hst | ].
  split; [exact Hsc | ]. split; [exact Hsv | ]. split.
  - apply heads_toward_scaled. apply Rmult_le_pos; [lra | ].
    left. now apply Rinv_0_lt_compat.
  - rewrite displacement_scaled. apply heads_toward_scaled. lra.
Qed.

Lemma far_example_is_far :
  num_gt (distance_to_target far_example) (py (1 / 100)) = true.
Proof.
  rewrite (distance_to_target_fin [0; 0] [3; 4] far_example) by reflexivity.
  unfold num_gt, f_gt, py. cbn [nval f_lt r_map2 r_dot].
  replace ((3 - 0) * (3 - 0) + ((4 - 0) * (4 - 0) + 0)) with (5 * 5) by ring.
  rewrite sqrt_square by lra. apply Rltb_true. lra.
Qed.

Lemma tick_from_rest_heads_toward_witness :
  exists s cs ws,
    tick AnimVec_class (py (1 / 60)) far_example = Done s
    /\ _target s = _target far_example
    /\ _change s = map Fin cs
    /\ _values s = map Fin ws
    /\ heads_toward [0; 0] [3; 4] cs
    /\ heads_toward [0; 0] [3; 4] (r_map2 Rminus ws [0; 0]).
Proof.
  apply (tick_from_rest_heads_toward AnimVec_class Py Py Py Py 3000 (13 / 10)
           (/ 10 ^ 7) (1 / 60) [0; 0] [3; 4] far_example).
  - reflexivity.
  - reflexivity.
  - reflexivity.
  - reflexivity.
  - reflexivity.
  - exact far_example_in_range.
  - reflexivity.
  - reflexivity.
  - lra.
  - reflexivity.
  - lra.
  - reflexivity.
  - exact default_drag_range.
  - lra.
  - exact far_example_is_far.
Defined.

(** ** [moving_toward] at the edges of the drag *)

(** X22: [moving_toward] on finite numbers raises [ValueError] for a
    drag that is not positive; at a drag of 1 it raises
    [ZeroDivisionError] for a Python rate, and for a numpy rate returns
    [-inf], [+inf] or [nan] as the rate is positive, negative or zero. *)
Theorem moving_toward_edges (kv kc k : kind) (v c d : R) :
  (d <= 0 ->
   moving_toward (mk_num kv (Fin v)) (mk_num kc (Fin c)) (mk_num k (Fin d))
   = Raise ValueError)
  /\ moving_toward (mk_num kv (Fin v)) (mk_num Py (Fin c)) (mk_num k (Fin 1))
     = Raise ZeroDivisionError
  /\ (0 < c ->
      exists r,
        moving_toward (mk_num kv (Fin v)) (mk_num Np (Fin c)) (mk_num k (Fin 1))
        = Ok r /\ nval r = NInf)
  /\ (c < 0 ->
      exists r,
        moving_toward (mk_num kv (Fin v)) (mk_num Np (Fin c)) (mk_num k (Fin 1))
        = Ok r /\ nval r = PInf)
  /\ (exists r,
         moving_toward (mk_num kv (Fin v)) (mk_num Np (Fin 0))
           (mk_num k (Fin 1)) = Ok r /\ nval r = NaN).
Proof.
  assert (Hlog : math_log (mk_num k (Fin 1)) = Ok (py 0)).
  { rewrite math_log_fin by lra. now rewrite ln_1. }
  split; [ | split; [ | split; [ | split] ] ].
  - intros Hd. unfold moving_toward, math_log, f_log. cbn [nval].
    now rewrite Rltb_false by lra.
  - unfold moving_toward. rewrite Hlog. cbn [bind].
    unfold num_div, py. cbn [nkind nval f_eq]. now rewrite Reqb_true.
  - intros Hc. unfold moving_toward. rewrite Hlog. cbn [bind].
    unfold num_div, num_sub, lift2, py.
    cbn [nkind nval bind f_div f_sub f_neg f_add]. rdecide.
    unfold sgn. rdecide. cbn [inf_of f_neg f_add]. eexists. now split.
  - intros Hc. unfold moving_toward. rewrite Hlog. cbn [bind].
    unfold num_div, num_sub, lift2, py.
    cbn [nkind nval bind f_div f_sub f_neg f_add]. rdecide.
    unfold sgn. rdecide. cbn [inf_of f_neg f_add]. eexists. now split.
  - unfold moving_toward. rewrite Hlog. cbn [bind].
    unfold num_div, num_sub, lift2, py.
    cbn [nkind nval bind f_div f_sub f_neg f_add]. rdecide.
    unfold sgn. rdecide. cbn [inf_of f_neg f_add]. eexists. now split.
Qed.
